(** * danawa_fridge_crawl: a shallow embedding of the crawler and its properties

    The development follows [danawa_fridge_crawl.py]:

    - Python [str] values are sequences of Unicode code points ([text]);
    - [re.search] is a backtracking matcher over the three patterns of
      [extract_capacities];
    - exceptions are an explicit [result] type;
    - the browser session and the output file are threaded through a state
      and exception monad that records every call made on them.

    Console output ([print]) is not modelled. *)

From Stdlib Require Import List NArith ZArith Bool Lia String Ascii.
From Stdlib Require Import DecimalString DecimalPos DecimalZ.
Import ListNotations.

Local Open Scope N_scope.

(* ================================================================== *)
(** ** Text *)

(** A character is a Unicode code point, a string is a list of them. *)
Definition char := N.
Definition text := list char.

(** String literals of the source are written as UTF-8 literals and decoded
    to code points. *)
Fixpoint utf8_decode (bs : list N) : text :=
  match bs with
  | [] => []
  | b0 :: r0 =>
    if b0 <? 128 then b0 :: utf8_decode r0
    else match r0 with
    | [] => []
    | b1 :: r1 =>
      if b0 <? 224 then ((b0 - 192) * 64 + (b1 - 128)) :: utf8_decode r1
      else match r1 with
      | [] => []
      | b2 :: r2 =>
        if b0 <? 240
        then ((b0 - 224) * 4096 + (b1 - 128) * 64 + (b2 - 128)) :: utf8_decode r2
        else match r2 with
        | [] => []
        | b3 :: r3 =>
          ((b0 - 240) * 262144 + (b1 - 128) * 4096 + (b2 - 128) * 64 + (b3 - 128))
            :: utf8_decode r3
        end
      end
    end
  end.

Definition py (s : string) : text :=
  utf8_decode (map N_of_ascii (list_ascii_of_string s)).

(** [a == b] on strings. *)
Fixpoint text_eqb (a b : text) : bool :=
  match a, b with
  | [], [] => true
  | x :: a', y :: b' => (x =? y) && text_eqb a' b'
  | _, _ => false
  end.

(** [s.startswith(p)] *)
Fixpoint starts_with (p s : text) : bool :=
  match p, s with
  | [], _ => true
  | _ :: _, [] => false
  | a :: p', b :: s' => (a =? b) && starts_with p' s'
  end.

(** [old in s]: [old] occurs in [s] as a substring. *)
Fixpoint str_contains (old s : text) : bool :=
  starts_with old s ||
  match s with
  | [] => false
  | _ :: s' => str_contains old s'
  end.

(** [s.replace(old, new)] for a one-character [old]. *)
Definition str_replace (old : char) (new s : text) : text :=
  flat_map (fun c => if c =? old then new else [c]) s.

(** [str(n)] for an integer: decimal digits, with a minus sign when
    negative. *)
Definition ascii_text (s : string) : text :=
  map N_of_ascii (list_ascii_of_string s).

Definition str (n : Z) : text :=
  ascii_text (NilZero.string_of_int (Z.to_int n)).

(* ================================================================== *)
(** ** Exceptions *)

Inductive exn : Type :=
| ValueError
| AttributeError
| TimeoutException.

Inductive result (A : Type) : Type :=
| Ok (a : A)
| Raise (e : exn).
Arguments Ok {A} a.
Arguments Raise {A} e.

Definition rbind {A B} (r : result A) (f : A -> result B) : result B :=
  match r with
  | Ok a => f a
  | Raise e => Raise e
  end.

Declare Scope result_scope.
Delimit Scope result_scope with result.
Notation "x <- r ;; k" := (rbind r (fun x => k))
  (at level 61, r at next level, right associativity) : result_scope.

(* ================================================================== *)
(** ** Character categories of the interpreter *)

Definition COLON : char := 58.
Definition COMMA : char := 44.
Definition LETTER_L : char := 76.

(** [\s] on [str] patterns: the Unicode white-space code points. *)
Definition is_space (c : char) : bool :=
  ((9 <=? c) && (c <=? 13)) || ((28 <=? c) && (c <=? 32))
  || (c =? 133) || (c =? 160) || (c =? 5760)
  || ((8192 <=? c) && (c <=? 8202))
  || (c =? 8232) || (c =? 8233) || (c =? 8239) || (c =? 8287) || (c =? 12288).

Section Interpreter.

(** The interpreter's table of decimal digits beyond ASCII (Unicode category
    Nd, with the value of each digit) belongs to the runtime, not to the
    program: it is a parameter.  White-space code points are never digits. *)
Variable unicode_decimal : char -> option N.

(** [sys.get_int_max_str_digits()]: the interpreter's cap on the number of
    digits [int] converts, [0] when the cap is off. *)
Variable int_max_str_digits : N.

Definition decimal_value (c : char) : option N :=
  if c <? 128 then
    if (48 <=? c) && (c <=? 57) then Some (c - 48) else None
  else if is_space c then None
  else unicode_decimal c.

(** [\d] on [str] patterns. *)
Definition is_digit (c : char) : bool :=
  match decimal_value c with Some _ => true | None => false end.

(* ------------------------------------------------------------------ *)
(** *** The regular expressions of the program *)

Inductive cls : Type :=
| Chr (c : char)          (* a literal character *)
| Space                   (* \s *)
| Digit                   (* \d *)
| Either (a b : cls).     (* [ab] *)

Fixpoint accepts (k : cls) (c : char) : bool :=
  match k with
  | Chr a => c =? a
  | Space => is_space c
  | Digit => is_digit c
  | Either a b => accepts a c || accepts b c
  end.

(** Greedy quantifiers over a one-character class. *)
Inductive quant : Type :=
| Once          (* x  *)
| Many0         (* x* *)
| Opt           (* x? *)
| Many1.        (* x+ *)

Record piece : Type := Piece {
  piece_cls : cls;
  piece_quant : quant;
  piece_group : bool       (* the piece is capture group 1 *)
}.

Definition regex := list piece.

Definition literal (s : text) : regex :=
  map (fun c => Piece (Chr c) Once false) s.

(** [label\s*:?\s*([\d,]+)\s*L], from its end to its beginning. *)
Definition unit_part : regex :=                       (* \s*L *)
  [ Piece Space Many0 false; Piece (Chr LETTER_L) Once false ].
Definition number_part : regex :=                     (* ([\d,]+)\s*L *)
  Piece (Either Digit (Chr COMMA)) Many1 true :: unit_part.
Definition spaced_number_part : regex :=              (* \s*([\d,]+)\s*L *)
  Piece Space Many0 false :: number_part.
Definition colon_part : regex :=                      (* :?\s*([\d,]+)\s*L *)
  Piece (Chr COLON) Opt false :: spaced_number_part.
Definition after_label : regex :=                     (* \s*:?\s*([\d,]+)\s*L *)
  Piece Space Many0 false :: colon_part.

Definition capacity_pattern (label : text) : regex :=
  literal label ++ after_label.

(* ------------------------------------------------------------------ *)
(** *** Backtracking matcher ([re.search]) *)

Definition orelse {A} (a b : option A) : option A :=
  match a with Some _ => a | None => b end.

Section Matcher.
Context {R : Type}.

(** Greedy repetition: take as many characters as the class accepts, and
    give characters back one at a time while the continuation fails. *)
Fixpoint greedy (p : char -> bool) (s acc : text)
    (k : text -> text -> option R) : option R :=
  match s with
  | c :: s' =>
    if p c then orelse (greedy p s' (acc ++ [c]) k) (k acc s) else k acc s
  | [] => k acc s
  end.

Definition match_piece (p : char -> bool) (q : quant) (s : text)
    (k : text -> text -> option R) : option R :=
  match q with
  | Once =>
    match s with
    | c :: s' => if p c then k [c] s' else None
    | [] => None
    end
  | Many0 => greedy p s [] k
  | Opt =>
    match s with
    | c :: s' => if p c then orelse (k [c] s') (k [] s) else k [] s
    | [] => k [] s
    end
  | Many1 =>
    match s with
    | c :: s' => if p c then greedy p s' [c] k else None
    | [] => None
    end
  end.

End Matcher.

(** A match object: only group 1 is ever read. *)
Record match_obj : Type := Match { group1 : option text }.

Fixpoint match_here (r : regex) (s : text) (g : option text) : option match_obj :=
  match r with
  | [] => Some (Match g)
  | pc :: r' =>
    match_piece (accepts (piece_cls pc)) (piece_quant pc) s
      (fun taken rest =>
         match_here r' rest (if piece_group pc then Some taken else g))
  end.

(** [re.search]: the first start position, left to right, with a match. *)
Fixpoint re_search (r : regex) (s : text) : option match_obj :=
  orelse (match_here r s None)
    match s with
    | [] => None
    | _ :: s' => re_search r s'
    end.

(* ------------------------------------------------------------------ *)
(** *** [int] on a string of decimal digits *)

(** The argument of [int] in the program consists of [\d] characters only
    (see [group_digits_only] below); signs, underscores and surrounding
    white space, which [int] also accepts, cannot reach it. *)
Fixpoint digit_values (s : text) : option (list N) :=
  match s with
  | [] => Some []
  | c :: s' =>
    match decimal_value c, digit_values s' with
    | Some d, Some ds => Some (d :: ds)
    | _, _ => None
    end
  end.

Definition digits_number (ds : list N) : N :=
  fold_left (fun acc d => 10 * acc + d) ds 0.

Definition over_digit_limit (n : N) : bool :=
  (640 <? n) && (0 <? int_max_str_digits) && (int_max_str_digits <? n).

Definition int_ (s : text) : result Z :=
  match digit_values s with
  | None => Raise ValueError
  | Some [] => Raise ValueError
  | Some ds =>
    if over_digit_limit (N.of_nat (List.length ds)) then Raise ValueError
    else Ok (Z.of_N (digits_number ds))
  end.

(* ------------------------------------------------------------------ *)
(** *** [extract_capacities] *)

Local Open Scope result_scope.

Definition LABEL_TOTAL : text := py "총용량".      (* U+CD1D U+C6A9 U+B7C9 *)
Definition LABEL_FRIDGE : text := py "냉장".        (* U+B0C9 U+C7A5 *)
Definition LABEL_FREEZER : text := py "냉동".       (* U+B0C9 U+B3D9 *)

Definition find_l (pattern : regex) (spec_text : text) : result (option Z) :=
  match re_search pattern spec_text with
  | None => Ok None
  | Some m =>
    match group1 m with
    | None => Raise AttributeError
    | Some g => n <- int_ (str_replace COMMA [] g) ;; Ok (Some n)
    end
  end.

Definition extract_capacities (spec_text : text)
    : result (option Z * option Z * option Z) :=
  total_l <- find_l (capacity_pattern LABEL_TOTAL) spec_text ;;
  fridge_l <- find_l (capacity_pattern LABEL_FRIDGE) spec_text ;;
  freezer_l <- find_l (capacity_pattern LABEL_FREEZER) spec_text ;;
  Ok (total_l, fridge_l, freezer_l).

(* ------------------------------------------------------------------ *)
(** *** Product cards of a rendered page *)

(** A tag found by [select_one]; the only thing read from it is
    [get_text(" ", strip=True)].  A tag is true in a condition, so
    [if not name_el] tests for [None]. *)
Record Tag : Type := { get_text : text }.

(** A candidate [li.prod_item.prod_layer]: what [select_one] answers for a
    CSS selector ([None] when nothing matches). *)
Record Item : Type := { select_one : text -> option Tag }.

(** (name, total_l, freezer_l, fridge_l) *)
Definition ProductRow : Type := text * Z * Z * Z.

Definition SEL_NAME : text := py "p.prod_name > a".
Definition SEL_SPEC_LIST : text := py "div.spec_list".
Definition SEL_PROD_SPEC_SET : text := py "div.prod_spec_set".

(** The body of the [for item in items] loop: [None] stands for [continue],
    [Some row] for [results.append(row)]. *)
(** The end of the loop body: the row is appended when the three capacities
    are there, freezer before fridge. *)
Definition emit_row (name spec_text : text) : result (option ProductRow) :=
  caps <- extract_capacities spec_text ;;
  match caps with
  | (Some total_l, Some fridge_l, Some freezer_l) =>
    Ok (Some (name, total_l, freezer_l, fridge_l))
  | _ => Ok None
  end.

Definition parse_item (item : Item) : result (option ProductRow) :=
  match select_one item SEL_NAME with
  | None => Ok None
  | Some name_el =>
    let name := get_text name_el in
    let spec_el :=
      match select_one item SEL_SPEC_LIST with
      | None => select_one item SEL_PROD_SPEC_SET
      | Some el => Some el
      end in
    match spec_el with
    | None => Ok None
    | Some spec_el =>
      let spec_text := get_text spec_el in
      emit_row name spec_text
    end
  end.

Fixpoint for_items (items : list Item) (results : list ProductRow)
    : result (list ProductRow) :=
  match items with
  | [] => Ok results
  | item :: items' =>
    r <- parse_item item ;;
    for_items items'
      (match r with Some row => results ++ [row] | None => results end)
  end.

(** [parse_current_page] on the candidates selected from the page source. *)
Definition parse_items (items : list Item) : result (list ProductRow) :=
  for_items items [].

(* ------------------------------------------------------------------ *)
(** *** The browser session and the file system *)

Inductive By : Type := XPATH | CSS_SELECTOR.
Definition locator : Type := By * text.
Definition WebElement : Type := N.

(** One entry per call the program makes on the outside world, with the
    answer it got. *)
Inductive call : Type :=
| Install                                             (* chromedriver_autoinstaller.install() *)
| Chrome (arguments : list text)                      (* webdriver.Chrome(options=options) *)
| ImplicitlyWait (seconds : N)
| Get (url : text)
| Sleep (milliseconds : N)
| PageSource (candidates : list Item)                 (* page_source, parsed and selected *)
| UntilClickable (seconds : N) (loc : locator) (found : option WebElement)
| GetAttribute (el : WebElement) (name : text) (value : option text)
| ExecuteScript (script : text) (el : WebElement)
| Quit
| Open (path mode newline encoding : text)
| Writerow (cells : list text)
| Writerows (rows : list (list text))
| Close.

(** A file opened for writing in text mode. *)
Record file : Type := File {
  file_newline : text;
  file_encoding : text;
  file_data : text
}.

(** The site behind the browser: how it answers and how it moves on. *)
Record Site (W : Type) : Type := {
  candidates_of : W -> list Item;
  clickable : N -> locator -> W -> option WebElement;
  attribute : WebElement -> text -> W -> option text;
  after : call -> W -> W
}.
Arguments candidates_of {W}.
Arguments clickable {W}.
Arguments attribute {W}.
Arguments after {W}.

Section Session.
Context {W : Type} (site : Site W).

Record state : Type := State {
  world : W;
  calls : list call;
  files : list (text * file)
}.

Definition M (A : Type) : Type := state -> result A * state.

Definition ret {A} (a : A) : M A := fun st => (Ok a, st).
Definition raise {A} (e : exn) : M A := fun st => (Raise e, st).
Definition bind {A B} (m : M A) (f : A -> M B) : M B :=
  fun st =>
    match m st with
    | (Ok a, st') => f a st'
    | (Raise e, st') => (Raise e, st')
    end.
Definition lift {A} (r : result A) : M A := fun st => (r, st).

(** [try: body  except TimeoutException: handler] *)
Definition try_except_timeout {A} (body handler : M A) : M A :=
  fun st =>
    match body st with
    | (Raise TimeoutException, st') => handler st'
    | r => r
    end.

Declare Scope session_scope.
Delimit Scope session_scope with session.
Notation "x <~ m ;; k" := (bind m (fun x => k))
  (at level 61, m at next level, right associativity) : session_scope.
Notation "m ;;; k" := (bind m (fun _ => k))
  (at level 61, right associativity) : session_scope.
Local Open Scope session_scope.

Definition record (c : call) : M unit :=
  fun st => (Ok tt, State (after site c (world st)) (calls st ++ [c]) (files st)).

Definition driver_page_candidates : M (list Item) :=
  fun st =>
    let items := candidates_of site (world st) in
    (Ok items, State (after site (PageSource items) (world st))
                     (calls st ++ [PageSource items]) (files st)).

(** [WebDriverWait(driver, seconds).until(EC.element_to_be_clickable(loc))] *)
Definition until_clickable (seconds : N) (loc : locator) : M WebElement :=
  fun st =>
    let found := clickable site seconds loc (world st) in
    let c := UntilClickable seconds loc found in
    let st' := State (after site c (world st)) (calls st ++ [c]) (files st) in
    match found with
    | Some el => (Ok el, st')
    | None => (Raise TimeoutException, st')
    end.

Definition get_attribute (el : WebElement) (name : text) : M (option text) :=
  fun st =>
    let value := attribute site el name (world st) in
    let c := GetAttribute el name value in
    (Ok value, State (after site c (world st)) (calls st ++ [c]) (files st)).

Definition execute_script (script : text) (el : WebElement) : M unit :=
  record (ExecuteScript script el).

Definition sleep (milliseconds : N) : M unit := record (Sleep milliseconds).

Definition parse_current_page : M (list ProductRow) :=
  items <~ driver_page_candidates ;;
  lift (parse_items items).

(* ------------------------------------------------------------------ *)
(** *** [go_to_next_page] *)

Definition QUOTE : char := 34.

Definition num_link_xpath (next_str : text) : text :=
  py "//a[contains(@class, " ++ [QUOTE] ++ py "num" ++ [QUOTE]
  ++ py ") and normalize-space()=" ++ [QUOTE] ++ next_str ++ [QUOTE] ++ py "]".

Definition NEXT_BUTTON_CSS : text := py "a.edge_nav.nav_next".
Definition SCROLL_INTO_VIEW : text := py "arguments[0].scrollIntoView(true);".
Definition CLICK : text := py "arguments[0].click();".

Definition click_through (el : WebElement) : M unit :=
  execute_script SCROLL_INTO_VIEW el ;;;
  sleep 500 ;;;
  execute_script CLICK el ;;;
  sleep 2000.

(** The first [try] block either returns [True] or falls through to the
    second one: [Some b] is [return b], [None] is falling through. *)
Definition numeric_link_attempt (next_str : text) : M (option bool) :=
  try_except_timeout
    (next_link <~ until_clickable 3 (XPATH, num_link_xpath next_str) ;;
     click_through next_link ;;;
     ret (Some true))
    (ret None).

Definition next_button_attempt : M bool :=
  try_except_timeout
    (next_btn <~ until_clickable 3 (CSS_SELECTOR, NEXT_BUTTON_CSS) ;;
     attr <~ get_attribute next_btn (py "class") ;;
     let class_attr := match attr with Some v => v | None => [] end in
     if str_contains (py "disabled") class_attr || str_contains (py "off") class_attr
     then ret false
     else click_through next_btn ;;; ret true)
    (ret false).

Definition go_to_next_page (current_page : Z) : M bool :=
  let next_num := (current_page + 1)%Z in
  let next_str := str next_num in
  r <~ numeric_link_attempt next_str ;;
  match r with
  | Some b => ret b
  | None => next_button_attempt
  end.

(* ------------------------------------------------------------------ *)
(** *** The result file *)

(** [csv.writer(f)] with the default dialect: comma, double quote, minimal
    quoting, lines ended by CR LF. *)
Definition csv_special (c : char) : bool :=
  (c =? COMMA) || (c =? QUOTE) || (c =? 13) || (c =? 10).

Definition csv_field (s : text) : text :=
  if existsb csv_special s
  then [QUOTE] ++ str_replace QUOTE [QUOTE; QUOTE] s ++ [QUOTE]
  else s.

Fixpoint join (sep : text) (parts : list text) : text :=
  match parts with
  | [] => []
  | [p] => p
  | p :: ps => p ++ sep ++ join sep ps
  end.

Definition csv_line (cells : list text) : text :=
  match cells with
  | [ [] ] => [QUOTE; QUOTE; 13; 10]
  | _ => join [COMMA] (map csv_field cells) ++ [13; 10]
  end.

Fixpoint assoc_set (path : text) (f : file) (fs : list (text * file))
    : list (text * file) :=
  match fs with
  | [] => [(path, f)]
  | (p, g) :: fs' =>
    if text_eqb p path then (path, f) :: fs' else (p, g) :: assoc_set path f fs'
  end.

Fixpoint assoc_get (path : text) (fs : list (text * file)) : option file :=
  match fs with
  | [] => None
  | (p, g) :: fs' => if text_eqb p path then Some g else assoc_get path fs'
  end.

(** [open(path, "w", newline=..., encoding=...)]: the file is created or
    truncated. *)
Definition open_w (path newline encoding : text) : M text :=
  fun st =>
    let c := Open path (py "w") newline encoding in
    (Ok path, State (after site c (world st)) (calls st ++ [c])
                    (assoc_set path (File newline encoding []) (files st))).

Definition append_data (f : text) (data : text) (fs : list (text * file))
    : list (text * file) :=
  match assoc_get f fs with
  | Some g =>
    assoc_set f (File (file_newline g) (file_encoding g) (file_data g ++ data)) fs
  | None => fs
  end.

Definition writerow (f : text) (cells : list text) : M unit :=
  fun st =>
    let c := Writerow cells in
    (Ok tt, State (after site c (world st)) (calls st ++ [c])
                  (append_data f (csv_line cells) (files st))).

Definition writerows (f : text) (rows : list (list text)) : M unit :=
  fun st =>
    let c := Writerows rows in
    (Ok tt, State (after site c (world st)) (calls st ++ [c])
                  (append_data f (flat_map csv_line rows) (files st))).

Definition row_cells (row : ProductRow) : list text :=
  match row with
  | (name, total_l, freezer_l, fridge_l) =>
    [name; str total_l; str freezer_l; str fridge_l]
  end.

(* ------------------------------------------------------------------ *)
(** *** [main] *)

Definition START_URL : text := py "https://prod.danawa.com/list/?cate=102110".
Definition OUTPUT_CSV : text := py "danawa_fridge_capacity.csv".
Definition MAX_PAGES : Z := 200.

Definition HEADER : list text :=
  [py "제품명"; py "총용량(L)"; py "냉동(L)"; py "냉장(L)"].

(** The [while current_page <= MAX_PAGES] loop.  Each evaluation of the loop
    test uses one unit of fuel; [None] is returned when the fuel runs out
    before the loop has ended, [Some all_rows] when the loop has ended. *)
Fixpoint crawl_loop (fuel : nat) (current_page : Z) (all_rows : list ProductRow)
    : M (option (list ProductRow)) :=
  match fuel with
  | O => ret None
  | S fuel' =>
    if (current_page <=? MAX_PAGES)%Z then
      page_rows <~ parse_current_page ;;
      let all_rows := all_rows ++ page_rows in
      moved <~ go_to_next_page current_page ;;
      if negb moved then ret (Some all_rows)
      else crawl_loop fuel' (current_page + 1)%Z all_rows
    else ret (Some all_rows)
  end.

Definition write_csv (all_rows : list ProductRow) : M unit :=
  f <~ open_w OUTPUT_CSV [] (py "utf-8-sig") ;;
  writerow f HEADER ;;;
  writerows f (map row_cells all_rows) ;;;
  record Close.

Definition main_with (fuel : nat) : M (option unit) :=
  record Install ;;;
  record (Chrome [py "--headless=new"; py "--window-size=1920,1080"]) ;;;
  record (ImplicitlyWait 5) ;;;
  record (Get START_URL) ;;;
  sleep 3000 ;;;
  looped <~ crawl_loop fuel 1%Z [] ;;
  match looped with
  | None => ret None
  | Some all_rows =>
    record Quit ;;;
    write_csv all_rows ;;;
    ret (Some tt)
  end.

(** [MAX_PAGES] loop bodies and one last test: this fuel always suffices
    (see [crawl_loop_run]). *)
Definition main : M (option unit) := main_with 201.

End Session.

(* ------------------------------------------------------------------ *)
(** *** Bytes of a written file *)

Definition utf8_encode_char (c : char) : option (list N) :=
  if c <? 128 then Some [c]
  else if c <? 2048 then Some [192 + c / 64; 128 + c mod 64]
  else if (55296 <=? c) && (c <=? 57343) then None
  else if c <? 65536 then
    Some [224 + c / 4096; 128 + (c / 64) mod 64; 128 + c mod 64]
  else if c <? 1114112 then
    Some [240 + c / 262144; 128 + (c / 4096) mod 64;
          128 + (c / 64) mod 64; 128 + c mod 64]
  else None.

Fixpoint utf8_encode (s : text) : option (list N) :=
  match s with
  | [] => Some []
  | c :: s' =>
    match utf8_encode_char c, utf8_encode s' with
    | Some b, Some bs => Some (b ++ bs)
    | _, _ => None
    end
  end.

Definition BOM : list N := [239; 187; 191].

(** What is on disk once the file is closed ([None]: the data cannot be
    encoded). *)
Definition file_bytes (f : file) : option (list N) :=
  if text_eqb (file_encoding f) (py "utf-8-sig")
  then option_map (app BOM) (utf8_encode (file_data f))
  else if text_eqb (file_encoding f) (py "utf-8")
  then utf8_encode (file_data f)
  else None.

End Interpreter.

Arguments candidates_of {W}.
Arguments clickable {W}.
Arguments attribute {W}.
Arguments after {W}.
Arguments State {W}.
Arguments world {W}.
Arguments calls {W}.
Arguments files {W}.

Definition ascii_only : char -> option N := fun _ => None.

(* ================================================================== *)
(** ** What the specification calls a labelled capacity field *)

Section Fields.
Variable unicode_decimal : char -> option N.
Variable int_max_str_digits : N.

(** A character of a number as it is written: a digit or a separator. *)
Definition number_char (c : char) : bool :=
  is_digit unicode_decimal c || (c =? COMMA).

(** [s] begins with the field [label], written as the label, an optional
    colon, the number [num] and the unit [L], with optional white space in
    between. *)
Definition field_at (label s num : text) : Prop :=
  exists ws1 colon ws2 ws3 post,
    s = label ++ ws1 ++ colon ++ ws2 ++ num ++ ws3 ++ LETTER_L :: post
    /\ forallb is_space ws1 = true
    /\ (colon = [] \/ colon = [COLON])
    /\ forallb is_space ws2 = true
    /\ forallb number_char num = true /\ num <> []
    /\ forallb is_space ws3 = true.

(** [num] is the number of the first field [label] of the text. *)
Definition first_field (label txt num : text) : Prop :=
  exists pre rest,
    txt = pre ++ rest
    /\ field_at label rest num
    /\ forall pre1 pre2 n,
         pre = pre1 ++ pre2 -> pre2 <> [] -> ~ field_at label (pre2 ++ rest) n.

(** The integer a written number stands for: its digits, separators
    skipped. *)
Definition add_digit (acc d : N) : N := 10 * acc + d.
Definition add_char (acc : N) (c : char) : N :=
  match decimal_value unicode_decimal c with
  | Some d => add_digit acc d
  | None => acc
  end.

Definition number_of (num : text) : Z := Z.of_N (fold_left add_char num 0).

Definition digit_count (num : text) : N :=
  N.of_nat (List.length (filter (is_digit unicode_decimal) num)).

(** The written number has a digit, and no more digits than the interpreter
    converts. *)
Definition convertible (num : text) : Prop :=
  existsb (is_digit unicode_decimal) num = true
  /\ over_digit_limit int_max_str_digits (digit_count num) = false.

(** A run of characters of a class ends where the text ends or the next
    character is outside the class. *)
Definition stops (p : char -> bool) (rest : text) : Prop :=
  match rest with
  | [] => True
  | c :: _ => p c = false
  end.

(** The three fields of [extract_capacities], in the order it returns them. *)
Inductive capacity : Type := Total | Fridge | Freezer.

Definition label_of (f : capacity) : text :=
  match f with
  | Total => LABEL_TOTAL
  | Fridge => LABEL_FRIDGE
  | Freezer => LABEL_FREEZER
  end.

Definition component (f : capacity) (caps : option Z * option Z * option Z)
    : option Z :=
  match caps, f with
  | (t, _, _), Total => t
  | (_, r, _), Fridge => r
  | (_, _, z), Freezer => z
  end.

End Fields.

(* ================================================================== *)
(** ** Reading a run from its calls *)

Section Observations.
Variable unicode_decimal : char -> option N.
Variable int_max_str_digits : N.

(** The rows one candidate contributes to the page's result. *)
Definition emitted (item : Item) : list ProductRow :=
  match parse_item unicode_decimal int_max_str_digits item with
  | Ok (Some row) => [row]
  | _ => []
  end.

(** The rows of the pages loaded during a run: pages in the order they were
    loaded, candidates in the order of the page. *)
Definition logged_rows (cs : list call) : list ProductRow :=
  flat_map (fun c =>
              match c with
              | PageSource items => flat_map emitted items
              | _ => []
              end) cs.

End Observations.


(** The calls that click an element. *)
Definition clicks (el : WebElement) : list call :=
  [ ExecuteScript SCROLL_INTO_VIEW el; Sleep 500;
    ExecuteScript CLICK el; Sleep 2000 ].


(** Calls made while moving to the next page. *)
Definition nav_call (c : call) : bool :=
  match c with
  | UntilClickable _ _ _ | GetAttribute _ _ _ | ExecuteScript _ _ | Sleep _ => true
  | _ => false
  end.

(** Calls made inside the crawl loop. *)
Definition crawl_call (c : call) : bool :=
  match c with
  | PageSource _ => true
  | _ => nav_call c
  end.

Definition page_loads (cs : list call) : nat :=
  List.length (filter (fun c => match c with PageSource _ => true | _ => false end) cs).

Definition quits (cs : list call) : nat :=
  List.length (filter (fun c => match c with Quit => true | _ => false end) cs).





(* ================================================================== *)
(** ** Counting the calls of a run *)

(** Calls that ask the page something and change nothing by themselves. *)
Definition query_call (c : call) : bool :=
  match c with
  | UntilClickable _ _ _ | GetAttribute _ _ _ => true
  | _ => false
  end.

Definition is_click (c : call) : bool :=
  match c with
  | ExecuteScript script _ => text_eqb script CLICK
  | _ => false
  end.

Definition is_script (c : call) : bool :=
  match c with
  | ExecuteScript _ _ => true
  | _ => false
  end.

Definition is_wait (c : call) : bool :=
  match c with
  | UntilClickable _ _ _ => true
  | _ => false
  end.

(** The clicks made, the scripts run and the waits made in a run. *)
Definition clicks_made (cs : list call) : nat := List.length (filter is_click cs).
Definition scripts_run (cs : list call) : nat := List.length (filter is_script cs).
Definition waits_made (cs : list call) : nat := List.length (filter is_wait cs).

(** The XPath expressions waited for in a run, in order. *)
Definition xpath_waits (cs : list call) : list text :=
  flat_map (fun c =>
              match c with
              | UntilClickable _ (XPATH, x) _ => [x]
              | _ => []
              end) cs.

(** The advancements tried in a loop that loaded the pages of [cs]: one for
    each page, but for the page that raised. *)
Definition tried (r : result (option (list ProductRow))) (cs : list call) : nat :=
  match r with
  | Raise _ => (page_loads cs - 1)%nat
  | Ok _ => page_loads cs
  end.

(** The time slept in a run, in milliseconds. *)
Definition slept (cs : list call) : N :=
  fold_right (fun c t => match c with Sleep ms => ms + t | _ => t end) 0 cs.

(* ================================================================== *)
(** ** Sites used in examples *)

Definition an_item (name spec_list prod_spec_set : option text) : Item :=
  {| select_one := fun sel =>
       if text_eqb sel SEL_NAME then option_map Build_Tag name
       else if text_eqb sel SEL_SPEC_LIST then option_map Build_Tag spec_list
       else if text_eqb sel SEL_PROD_SPEC_SET then option_map Build_Tag prod_spec_set
       else None |}.

(** A listing of pages, the world being the number of the page shown
    (from 0).  Page [n] shows a numbered link to the next page while one
    exists; there is no next button. *)
Definition listing (pages : list (list Item)) : Site nat :=
  {| candidates_of := fun n => nth n pages [];
     clickable := fun _ loc n =>
       if Nat.ltb (S n) (List.length pages) then
         match loc with
         | (XPATH, _) => Some (N.of_nat (S n))
         | _ => None
         end
       else None;
     attribute := fun _ _ _ => None;
     after := fun c n =>
       match c with
       | ExecuteScript script _ => if text_eqb script CLICK then S n else n
       | _ => n
       end |}.

(** A site on which a numbered link to the next page is always clickable. *)
Definition endless : Site unit :=
  {| candidates_of := fun _ => [];
     clickable := fun _ loc _ =>
       match loc with (XPATH, _) => Some 1 | _ => None end;
     attribute := fun _ _ _ => None;
     after := fun _ w => w |}.

Definition start {W} (w : W) : state := State w [] [].

Definition two_fields (f : capacity) : text :=
  match f with
  | Total => py "870"
  | Fridge => py "503"
  | Freezer => []
  end.

Definition ABC_SPEC : text := py "총용량: 870L/냉장: 503L/냉동: 367L/".
Definition ABC_ITEM : Item := an_item (Some (py "ABC Fridge")) (Some ABC_SPEC) None.

(** A card whose total capacity is written with a separator and no digit. *)
Definition NO_DIGIT_SPEC : text := py "총용량: ,L".
Definition NO_DIGIT_ITEM : Item :=
  an_item (Some (py "XYZ Fridge")) (Some NO_DIGIT_SPEC) None.

(* ================================================================== *)
(** ** Character classes are pairwise disjoint *)

Ltac bools :=
  repeat match goal with
  | H : _ && _ = true |- _ => apply andb_true_iff in H; destruct H
  | H : _ || _ = true |- _ => apply orb_true_iff in H; destruct H
  | H : _ || _ = false |- _ => apply orb_false_iff in H; destruct H
  | H : (_ <=? _) = true |- _ => apply N.leb_le in H
  | H : (_ <=? _) = false |- _ => apply N.leb_gt in H
  | H : (_ <? _) = true |- _ => apply N.ltb_lt in H
  | H : (_ <? _) = false |- _ => apply N.ltb_ge in H
  | H : (_ =? _) = true |- _ => apply N.eqb_eq in H
  | H : (_ =? _) = false |- _ => apply N.eqb_neq in H
  end.

Lemma is_space_cases (c : char) :
  is_space c = true ->
  (9 <= c <= 13) \/ (28 <= c <= 32) \/ 133 <= c.
Proof.
  unfold is_space; intros H; bools; lia.
Qed.

Section Classes.
Variable unicode_decimal : char -> option N.

Lemma space_not_digit (c : char) :
  is_space c = true -> is_digit unicode_decimal c = false.
Proof.
  intros H. unfold is_digit, decimal_value.
  destruct (c <? 128) eqn:E128.
  - destruct ((48 <=? c) && (c <=? 57)) eqn:E; [|reflexivity].
    apply is_space_cases in H. bools. lia.
  - rewrite H. reflexivity.
Qed.

Lemma space_not_number_char (c : char) :
  is_space c = true -> number_char unicode_decimal c = false.
Proof.
  intros H. unfold number_char. rewrite (space_not_digit c H). simpl.
  apply N.eqb_neq. apply is_space_cases in H. unfold COMMA. lia.
Qed.

Lemma number_char_not_space (c : char) :
  number_char unicode_decimal c = true -> is_space c = false.
Proof.
  intros H. destruct (is_space c) eqn:E; [|reflexivity].
  rewrite (space_not_number_char c E) in H. discriminate.
Qed.

Lemma space_not_colon (c : char) : is_space c = true -> (c =? COLON) = false.
Proof.
  intros H. apply N.eqb_neq. apply is_space_cases in H. unfold COLON. lia.
Qed.

Lemma space_not_L (c : char) : is_space c = true -> (c =? LETTER_L) = false.
Proof.
  intros H. apply N.eqb_neq. apply is_space_cases in H. unfold LETTER_L. lia.
Qed.

Lemma ascii_digit (c : char) :
  c < 128 -> is_digit unicode_decimal c = true -> 48 <= c <= 57.
Proof.
  intros Hc. unfold is_digit, decimal_value.
  apply N.ltb_lt in Hc. rewrite Hc.
  destruct ((48 <=? c) && (c <=? 57)) eqn:E; [|discriminate].
  intros _. bools. lia.
Qed.

Lemma number_char_not_colon (c : char) :
  number_char unicode_decimal c = true -> (c =? COLON) = false.
Proof.
  intros H. apply N.eqb_neq. intros ->.
  unfold number_char in H. bools.
  - apply ascii_digit in H; unfold COLON in *; lia.
  - discriminate.
Qed.

Lemma number_char_not_L (c : char) :
  number_char unicode_decimal c = true -> (c =? LETTER_L) = false.
Proof.
  intros H. apply N.eqb_neq. intros ->.
  unfold number_char in H. bools.
  - apply ascii_digit in H; unfold LETTER_L in *; lia.
  - discriminate.
Qed.

Lemma accepts_number_char (c : char) :
  accepts unicode_decimal (Either Digit (Chr COMMA)) c
  = number_char unicode_decimal c.
Proof. reflexivity. Qed.

End Classes.

(* ================================================================== *)
(** ** The backtracking matcher against the fields of the specification *)

Section Greedy.
Context {R : Type}.
Implicit Types (p : char -> bool) (k : text -> text -> option R).

(** What a greedy repetition took is a run of accepted characters. *)
Lemma greedy_sound p k s acc r :
  greedy p s acc k = Some r ->
  exists ws rest,
    s = ws ++ rest /\ forallb p ws = true /\ k (acc ++ ws) rest = Some r.
Proof.
  revert acc. induction s as [|c s IH]; intros acc H; simpl in H.
  - exists [], []. repeat split; rewrite ?List.app_nil_r; auto.
  - destruct (p c) eqn:Hc.
    + destruct (greedy p s (acc ++ [c]) k) eqn:G; simpl in H.
      * injection H as ->. apply IH in G.
        destruct G as (ws & rest & -> & Hws & Hk).
        exists (c :: ws), rest. simpl. rewrite Hc.
        rewrite <- List.app_assoc in Hk. repeat split; auto.
      * exists [], (c :: s). repeat split; rewrite ?List.app_nil_r; auto.
    + exists [], (c :: s). repeat split; rewrite ?List.app_nil_r; auto.
Qed.

(** When the continuation accepts the longest run, that is the answer. *)
Lemma greedy_longest p k ws rest acc r :
  forallb p ws = true -> stops p rest ->
  k (acc ++ ws) rest = Some r ->
  greedy p (ws ++ rest) acc k = Some r.
Proof.
  revert acc. induction ws as [|c ws IH]; intros acc Hws Hstop Hk; simpl in *.
  - rewrite List.app_nil_r in Hk.
    destruct rest as [|d rest]; simpl; [assumption|].
    simpl in Hstop. rewrite Hstop. assumption.
  - apply andb_true_iff in Hws. destruct Hws as [Hc Hws]. rewrite Hc.
    rewrite (IH (acc ++ [c])); auto.
    rewrite <- List.app_assoc. assumption.
Qed.

End Greedy.

Section Matching.
Variable unicode_decimal : char -> option N.

Local Abbreviation matches := (match_here unicode_decimal).
Local Abbreviation numeric := (number_char unicode_decimal).
Local Abbreviation field := (field_at unicode_decimal).

Lemma match_literal (l : text) (r : regex) (s : text) (g : option text) :
  matches (literal l ++ r) (l ++ s) g = matches r s g.
Proof.
  induction l as [|c l IH]; simpl; [reflexivity|].
  rewrite N.eqb_refl. apply IH.
Qed.

Lemma match_literal_sound (l : text) (r : regex) (s : text) g m :
  matches (literal l ++ r) s g = Some m ->
  exists s', s = l ++ s' /\ matches r s' g = Some m.
Proof.
  revert s. induction l as [|c l IH]; intros s H; simpl in H.
  - exists s. auto.
  - destruct s as [|d s]; [discriminate|].
    destruct (d =? c) eqn:E; [|discriminate].
    apply N.eqb_eq in E. subst d.
    apply IH in H. destruct H as (s' & -> & H). exists s'. auto.
Qed.

(** The pattern after the label, unfolded one piece at a time. *)
Lemma unit_part_eq s g :
  matches unit_part s g
  = greedy is_space s []
      (fun _ rest =>
         match rest with
         | c :: _ => if c =? LETTER_L then Some (Match g) else None
         | [] => None
         end).
Proof. reflexivity. Qed.

Lemma number_part_eq s g :
  matches number_part s g
  = match s with
    | c :: s' =>
      if numeric c
      then greedy numeric s' [c] (fun taken rest => matches unit_part rest (Some taken))
      else None
    | [] => None
    end.
Proof. reflexivity. Qed.

Lemma spaced_number_part_eq s g :
  matches spaced_number_part s g
  = greedy is_space s [] (fun _ rest => matches number_part rest g).
Proof. reflexivity. Qed.

Lemma colon_part_eq s g :
  matches colon_part s g
  = match s with
    | c :: s' =>
      if c =? COLON
      then orelse (matches spaced_number_part s' g) (matches spaced_number_part s g)
      else matches spaced_number_part s g
    | [] => matches spaced_number_part s g
    end.
Proof. destruct s; reflexivity. Qed.

Lemma after_label_eq s g :
  matches after_label s g
  = greedy is_space s [] (fun _ rest => matches colon_part rest g).
Proof. reflexivity. Qed.

Lemma stops_space_L post : stops is_space (LETTER_L :: post).
Proof. reflexivity. Qed.

Lemma stops_number_unit ws3 post :
  forallb is_space ws3 = true ->
  stops numeric (ws3 ++ LETTER_L :: post).
Proof.
  intros H. destruct ws3 as [|c ws3]; simpl.
  - destruct (numeric LETTER_L) eqn:E; [|reflexivity].
    apply number_char_not_L in E. discriminate.
  - simpl in H. apply andb_true_iff in H. destruct H as [H _].
    apply space_not_number_char. assumption.
Qed.

Lemma stops_space_number num rest :
  forallb numeric num = true -> num <> [] ->
  stops is_space (num ++ rest).
Proof.
  intros H Hne. destruct num as [|c num]; [congruence|]. simpl in *.
  apply andb_true_iff in H. destruct H as [H _].
  apply number_char_not_space with (1 := H).
Qed.

Lemma unit_part_complete ws3 post g :
  forallb is_space ws3 = true ->
  matches unit_part (ws3 ++ LETTER_L :: post) g = Some (Match g).
Proof.
  intros H. rewrite unit_part_eq.
  apply greedy_longest; [assumption | apply stops_space_L | reflexivity].
Qed.

Lemma number_part_complete num ws3 post g :
  forallb numeric num = true -> num <> [] ->
  forallb is_space ws3 = true ->
  matches number_part (num ++ ws3 ++ LETTER_L :: post) g
  = Some (Match (Some num)).
Proof.
  intros Hnum Hne Hws. destruct num as [|c num]; [congruence|].
  simpl in Hnum. apply andb_true_iff in Hnum. destruct Hnum as [Hc Hnum].
  rewrite number_part_eq. simpl app. cbv beta match. rewrite Hc.
  apply greedy_longest; auto using stops_number_unit.
  apply unit_part_complete. assumption.
Qed.

Lemma spaced_number_part_complete ws2 num ws3 post g :
  forallb is_space ws2 = true ->
  forallb numeric num = true -> num <> [] ->
  forallb is_space ws3 = true ->
  matches spaced_number_part (ws2 ++ num ++ ws3 ++ LETTER_L :: post) g
  = Some (Match (Some num)).
Proof.
  intros Hws2 Hnum Hne Hws3. rewrite spaced_number_part_eq.
  apply greedy_longest; auto using stops_space_number.
  apply number_part_complete; assumption.
Qed.

Lemma after_label_complete ws1 colon ws2 num ws3 post g :
  forallb is_space ws1 = true ->
  colon = [] \/ colon = [COLON] ->
  forallb is_space ws2 = true ->
  forallb numeric num = true -> num <> [] ->
  forallb is_space ws3 = true ->
  matches after_label
    (ws1 ++ colon ++ ws2 ++ num ++ ws3 ++ LETTER_L :: post) g
  = Some (Match (Some num)).
Proof.
  intros Hws1 [->| ->] Hws2 Hnum Hne Hws3; rewrite after_label_eq.
  - (* no colon: the first run of white space is [ws1 ++ ws2] *)
    simpl app. rewrite List.app_assoc.
    apply greedy_longest.
    + rewrite forallb_app, Hws1, Hws2. reflexivity.
    + apply stops_space_number; assumption.
    + pose proof (spaced_number_part_complete [] num ws3 post g eq_refl
                    Hnum Hne Hws3) as Hrest.
      simpl app in Hrest. rewrite colon_part_eq.
      destruct num as [|c num]; [congruence|].
      simpl in Hnum. apply andb_true_iff in Hnum. destruct Hnum as [Hc _].
      simpl app in *. cbv beta match.
      rewrite (number_char_not_colon _ _ Hc). exact Hrest.
  - apply greedy_longest; [assumption | reflexivity |].
    rewrite colon_part_eq. simpl app. cbv beta match. rewrite N.eqb_refl.
    rewrite spaced_number_part_complete; auto.
Qed.

Lemma unit_part_sound s g m :
  matches unit_part s g = Some m ->
  exists ws3 post,
    s = ws3 ++ LETTER_L :: post /\ forallb is_space ws3 = true /\ m = Match g.
Proof.
  rewrite unit_part_eq. intros H.
  apply greedy_sound in H. destruct H as (ws3 & rest & -> & Hws & H).
  destruct rest as [|c rest]; [discriminate|].
  destruct (c =? LETTER_L) eqn:E; [|discriminate].
  apply N.eqb_eq in E. subst c. injection H as <-.
  exists ws3, rest. auto.
Qed.

Lemma number_part_sound s g m :
  matches number_part s g = Some m ->
  exists num ws3 post,
    s = num ++ ws3 ++ LETTER_L :: post
    /\ forallb numeric num = true /\ num <> []
    /\ forallb is_space ws3 = true /\ m = Match (Some num).
Proof.
  rewrite number_part_eq. intros H.
  destruct s as [|c s]; [discriminate|].
  destruct (numeric c) eqn:Hc; [|discriminate].
  apply greedy_sound in H. destruct H as (ws & rest & -> & Hws & H).
  apply unit_part_sound in H. destruct H as (ws3 & post & -> & Hws3 & ->).
  exists (c :: ws), ws3, post. simpl. rewrite Hc.
  repeat split; auto. discriminate.
Qed.

Lemma spaced_number_part_sound s g m :
  matches spaced_number_part s g = Some m ->
  exists ws2 num ws3 post,
    s = ws2 ++ num ++ ws3 ++ LETTER_L :: post
    /\ forallb is_space ws2 = true
    /\ forallb numeric num = true /\ num <> []
    /\ forallb is_space ws3 = true /\ m = Match (Some num).
Proof.
  rewrite spaced_number_part_eq. intros H.
  apply greedy_sound in H. destruct H as (ws2 & rest & -> & Hws2 & H).
  apply number_part_sound in H.
  destruct H as (num & ws3 & post & -> & Hnum & Hne & Hws3 & ->).
  exists ws2, num, ws3, post. auto 10.
Qed.

Lemma after_label_sound s g m :
  matches after_label s g = Some m ->
  exists ws1 colon ws2 num ws3 post,
    s = ws1 ++ colon ++ ws2 ++ num ++ ws3 ++ LETTER_L :: post
    /\ forallb is_space ws1 = true
    /\ (colon = [] \/ colon = [COLON])
    /\ forallb is_space ws2 = true
    /\ forallb numeric num = true /\ num <> []
    /\ forallb is_space ws3 = true /\ m = Match (Some num).
Proof.
  rewrite after_label_eq. intros H.
  apply greedy_sound in H. destruct H as (ws1 & rest & -> & Hws1 & H).
  rewrite colon_part_eq in H.
  assert (Hcases :
    matches spaced_number_part rest g = Some m
    \/ exists rest', rest = COLON :: rest'
         /\ matches spaced_number_part rest' g = Some m).
  { destruct rest as [|c rest]; [left; exact H|].
    destruct (c =? COLON) eqn:E; [|left; exact H].
    apply N.eqb_eq in E. subst c.
    destruct (matches spaced_number_part rest g) eqn:G.
    - right. exists rest. split; [reflexivity|]. simpl in H. congruence.
    - left. exact H. }
  destruct Hcases as [H'|(rest' & -> & H')];
    apply spaced_number_part_sound in H';
    destruct H' as (ws2 & num & ws3 & post & -> & Hws2 & Hnum & Hne & Hws3 & ->).
  - exists ws1, [], ws2, num, ws3, post. simpl. auto 10.
  - exists ws1, [COLON], ws2, num, ws3, post. simpl. auto 10.
Qed.

(** At one position, the pattern matches exactly the fields of the
    specification, and captures the written number. *)
Lemma match_here_field (label s num : text) :
  field label s num <->
  matches (capacity_pattern label) s None = Some (Match (Some num)).
Proof.
  unfold capacity_pattern. split.
  - intros (ws1 & colon & ws2 & ws3 & post & -> & H1 & Hc & H2 & Hn & Hne & H3).
    rewrite match_literal. apply after_label_complete; assumption.
  - intros H. apply match_literal_sound in H. destruct H as (s' & -> & H).
    apply after_label_sound in H.
    destruct H as (ws1 & colon & ws2 & n & ws3 & post & -> & H1 & Hc & H2 & Hn & Hne & H3 & E).
    injection E as <-.
    exists ws1, colon, ws2, ws3, post. auto 10.
Qed.

Lemma match_here_captures (label s : text) m :
  matches (capacity_pattern label) s None = Some m ->
  exists num, m = Match (Some num) /\ field label s num.
Proof.
  intros H. pose proof H as H0.
  unfold capacity_pattern in H.
  apply match_literal_sound in H. destruct H as (s' & -> & H).
  apply after_label_sound in H.
  destruct H as (ws1 & colon & ws2 & n & ws3 & post & -> & _ & _ & _ & _ & _ & _ & ->).
  exists n. split; [reflexivity|]. apply match_here_field. exact H0.
Qed.

End Matching.

(* ================================================================== *)
(** ** [re.search], [int] and [find_l] *)

Section Search.
Variable unicode_decimal : char -> option N.
Variable int_max_str_digits : N.

Local Abbreviation matches := (match_here unicode_decimal).
Local Abbreviation search := (re_search unicode_decimal).
Local Abbreviation numeric := (number_char unicode_decimal).
Local Abbreviation field := (field_at unicode_decimal).
Local Abbreviation digit := (is_digit unicode_decimal).

Lemma re_search_cons r c s :
  search r (c :: s) = orelse (matches r (c :: s) None) (search r s).
Proof. reflexivity. Qed.

Lemma re_search_here r s m :
  matches r s None = Some m -> search r s = Some m.
Proof. intros H. destruct s; simpl; rewrite H; reflexivity. Qed.

Lemma re_search_skip r pre rest :
  (forall pre1 pre2, pre = pre1 ++ pre2 -> pre2 <> [] ->
     matches r (pre2 ++ rest) None = None) ->
  search r (pre ++ rest) = search r rest.
Proof.
  induction pre as [|c pre IH]; intros H; [reflexivity|].
  simpl app. rewrite re_search_cons.
  assert (E : matches r ((c :: pre) ++ rest) None = None)
    by (apply (H [] (c :: pre) eq_refl); discriminate).
  simpl app in E. rewrite E. simpl.
  apply IH. intros pre1 pre2 -> Hne.
  apply (H (c :: pre1) pre2 eq_refl Hne).
Qed.

Lemma re_search_none r s :
  (forall s1 s2, s = s1 ++ s2 -> matches r s2 None = None) ->
  search r s = None.
Proof.
  induction s as [|c s IH]; intros H.
  - simpl. rewrite (H [] [] eq_refl). reflexivity.
  - rewrite re_search_cons, (H [] (c :: s) eq_refl). simpl.
    apply IH. intros s1 s2 ->. apply (H (c :: s1) s2 eq_refl).
Qed.

(** A found match starts at the first position where one exists. *)
Lemma re_search_sound r s m :
  search r s = Some m ->
  exists pre rest,
    s = pre ++ rest /\ matches r rest None = Some m
    /\ forall pre1 pre2, pre = pre1 ++ pre2 -> pre2 <> [] ->
         matches r (pre2 ++ rest) None = None.
Proof.
  induction s as [|c s IH]; intros H.
  - simpl in H. destruct (matches r [] None) eqn:E; [|discriminate].
    simpl in H. injection H as <-.
    exists [], []. split; [reflexivity|]. split; [exact E|].
    intros [|? ?] pre2 E'; simpl in E'; [subst pre2; congruence|discriminate].
  - rewrite re_search_cons in H.
    destruct (matches r (c :: s) None) eqn:E.
    + simpl in H. injection H as <-.
      exists [], (c :: s). split; [reflexivity|]. split; [exact E|].
      intros [|? ?] pre2 E'; simpl in E'; [subst pre2; congruence|discriminate].
    + simpl in H. apply IH in H.
      destruct H as (pre & rest & -> & Hm & Hfirst).
      exists (c :: pre), rest. split; [reflexivity|]. split; [exact Hm|].
      intros [|d pre1] pre2 E' Hne; simpl in E'.
      * subst pre2. exact E.
      * injection E' as _ ->. apply (Hfirst pre1 pre2 eq_refl Hne).
Qed.

(** [re.search] finds the first field of the specification. *)
Lemma first_field_search (label txt num : text) :
  first_field unicode_decimal label txt num <->
  search (capacity_pattern label) txt = Some (Match (Some num)).
Proof.
  split.
  - intros (pre & rest & -> & Hf & Hfirst).
    rewrite re_search_skip.
    + apply re_search_here. apply match_here_field. exact Hf.
    + intros pre1 pre2 E Hne.
      destruct (matches (capacity_pattern label) (pre2 ++ rest) None) eqn:G;
        [|reflexivity].
      apply match_here_captures in G. destruct G as (n & _ & G).
      exfalso. apply (Hfirst pre1 pre2 n E Hne G).
  - intros H. apply re_search_sound in H.
    destruct H as (pre & rest & -> & Hm & Hfirst).
    exists pre, rest. repeat split; [apply match_here_field; exact Hm|].
    intros pre1 pre2 n E Hne Hf.
    apply match_here_field in Hf. rewrite (Hfirst pre1 pre2 E Hne) in Hf.
    discriminate.
Qed.

Lemma starts_with_app (l s : text) : starts_with l (l ++ s) = true.
Proof. induction l; simpl; [reflexivity|]. rewrite N.eqb_refl. assumption. Qed.

Lemma str_contains_app (l s1 s2 : text) : str_contains l (s1 ++ l ++ s2) = true.
Proof.
  induction s1 as [|c s1 IH]; simpl.
  - pose proof (starts_with_app l s2) as E.
    destruct (l ++ s2); simpl; rewrite E; reflexivity.
  - rewrite IH. apply orb_true_r.
Qed.

Lemma re_search_label_absent (label txt : text) :
  str_contains label txt = false ->
  search (capacity_pattern label) txt = None.
Proof.
  intros H. apply re_search_none. intros s1 s2 ->.
  destruct (matches (capacity_pattern label) s2 None) eqn:G; [|reflexivity].
  unfold capacity_pattern in G. apply match_literal_sound in G.
  destruct G as (s' & -> & _). rewrite str_contains_app in H. discriminate.
Qed.

(* ------------------------------------------------------------------ *)

Lemma comma_not_digit : decimal_value unicode_decimal COMMA = None.
Proof. reflexivity. Qed.

(** Once the separators are removed, a written number is a string of
    digits, and [int] reads the number it stands for. *)
Lemma digit_values_written (num : text) :
  forallb numeric num = true ->
  exists ds,
    digit_values unicode_decimal (str_replace COMMA [] num) = Some ds
    /\ (forall acc, fold_left add_digit ds acc
                   = fold_left (add_char unicode_decimal) num acc)
    /\ List.length ds = List.length (filter digit num).
Proof.
  induction num as [|c num IH]; intros H.
  - exists []. repeat split.
  - simpl in H. apply andb_true_iff in H. destruct H as [Hc H].
    destruct (IH H) as (ds & Hds & Hfold & Hlen).
    unfold str_replace in *. simpl flat_map.
    destruct (c =? COMMA) eqn:E.
    + apply N.eqb_eq in E. subst c. exists ds. simpl app.
      repeat split; [assumption| |].
      * intros acc. simpl. unfold add_char at 2. rewrite comma_not_digit.
        apply Hfold.
      * change (filter digit (COMMA :: num)) with (filter digit num).
        assumption.
    + unfold number_char in Hc. rewrite E, orb_false_r in Hc.
      unfold is_digit in Hc.
      destruct (decimal_value unicode_decimal c) as [d|] eqn:D; [|discriminate].
      exists (d :: ds). simpl. rewrite D, Hds.
      repeat split.
      * intros acc. unfold add_char at 2. rewrite D. apply Hfold.
      * unfold is_digit at 1. rewrite D. simpl. congruence.
Qed.

Lemma filter_nil_existsb (num : text) :
  filter digit num = [] -> existsb digit num = false.
Proof.
  induction num as [|c num IH]; simpl; [reflexivity|].
  destruct (digit c); [discriminate|]. assumption.
Qed.

Lemma int_written (num : text) :
  forallb numeric num = true ->
  convertible unicode_decimal int_max_str_digits num ->
  int_ unicode_decimal int_max_str_digits (str_replace COMMA [] num)
  = Ok (number_of unicode_decimal num).
Proof.
  intros H [Hdigit Hlimit].
  destruct (digit_values_written num H) as (ds & Hds & Hfold & Hlen).
  unfold int_. rewrite Hds.
  destruct ds as [|d ds].
  - simpl in Hlen. symmetry in Hlen. apply length_zero_iff_nil in Hlen.
    apply filter_nil_existsb in Hlen. congruence.
  - unfold digit_count in Hlimit. rewrite <- Hlen in Hlimit. rewrite Hlimit.
    unfold number_of, digits_number. f_equal. f_equal. apply Hfold.
Qed.

(** A written number without a digit is not converted. *)
Lemma int_no_digit (num : text) :
  forallb numeric num = true ->
  existsb digit num = false ->
  int_ unicode_decimal int_max_str_digits (str_replace COMMA [] num)
  = Raise ValueError.
Proof.
  intros H Hno.
  destruct (digit_values_written num H) as (ds & Hds & _ & Hlen).
  unfold int_. rewrite Hds.
  destruct ds as [|d ds]; [reflexivity|].
  exfalso. clear - Hno Hlen.
  assert (E : filter digit num = []).
  { clear Hlen. induction num as [|c num IH]; simpl in *; [reflexivity|].
    apply orb_false_iff in Hno. destruct Hno as [-> Hno]. auto. }
  rewrite E in Hlen. discriminate.
Qed.

(** The argument of [int] in [find_l] is always a string of digits. *)
Lemma group_digits_only (label txt : text) m :
  search (capacity_pattern label) txt = Some m ->
  exists g ds,
    group1 m = Some g
    /\ digit_values unicode_decimal (str_replace COMMA [] g) = Some ds.
Proof.
  intros H. apply re_search_sound in H.
  destruct H as (pre & rest & _ & H & _).
  apply match_here_captures in H. destruct H as (num & -> & Hf).
  destruct Hf as (? & ? & ? & ? & ? & _ & _ & _ & _ & Hnum & _).
  destruct (digit_values_written num Hnum) as (ds & Hds & _).
  exists num, ds. auto.
Qed.

Lemma field_at_written (label s num : text) :
  field label s num -> forallb numeric num = true.
Proof. intros (? & ? & ? & ? & ? & _ & _ & _ & _ & H & _). exact H. Qed.

Lemma find_l_first_field (label txt num : text) :
  first_field unicode_decimal label txt num ->
  convertible unicode_decimal int_max_str_digits num ->
  find_l unicode_decimal int_max_str_digits (capacity_pattern label) txt
  = Ok (Some (number_of unicode_decimal num)).
Proof.
  intros Hf Hc. unfold find_l.
  pose proof Hf as (pre & rest & _ & Hat & _).
  apply first_field_search in Hf. rewrite Hf. cbn [group1].
  rewrite int_written; [reflexivity | | assumption].
  apply (field_at_written _ _ _ Hat).
Qed.

Lemma find_l_label_absent (label txt : text) :
  str_contains label txt = false ->
  find_l unicode_decimal int_max_str_digits (capacity_pattern label) txt
  = Ok None.
Proof.
  intros H. unfold find_l. rewrite re_search_label_absent; auto.
Qed.

End Search.

(* ================================================================== *)
(** ** The spec parser *)

Section SpecParser.
Variable unicode_decimal : char -> option N.
Variable int_max_str_digits : N.

Local Abbreviation first := (first_field unicode_decimal).
Local Abbreviation readable := (convertible unicode_decimal int_max_str_digits).
Local Abbreviation value := (number_of unicode_decimal).
Local Abbreviation capacities := (extract_capacities unicode_decimal int_max_str_digits).

(** C2.  A spec text that has the three labelled fields, wherever each of
    them stands in the text, is parsed to the three numbers written in
    them, separators removed: [total_l] is the number of the first
    총용량 field, [fridge_l] of the first 냉장 field and [freezer_l] of the
    first 냉동 field.  Each written number has a digit and is within the
    number of digits [int] converts. *)
Theorem extract_capacities_three_fields (txt nt nr nz : text) :
  first LABEL_TOTAL txt nt -> readable nt ->
  first LABEL_FRIDGE txt nr -> readable nr ->
  first LABEL_FREEZER txt nz -> readable nz ->
  capacities txt = Ok (Some (value nt), Some (value nr), Some (value nz)).
Proof.
  intros Ht Ct Hr Cr Hz Cz. unfold extract_capacities.
  rewrite (find_l_first_field _ _ _ _ _ Ht Ct).
  rewrite (find_l_first_field _ _ _ _ _ Hr Cr).
  rewrite (find_l_first_field _ _ _ _ _ Hz Cz).
  reflexivity.
Qed.

(** C3.  When one of the three labels does not occur in the spec text and
    the two other fields are there, [extract_capacities] returns [None] for
    the missing field, and for each of the two others the number written in
    its first field. *)
Theorem extract_capacities_one_label_missing
    (txt : text) (missing : capacity) (num : capacity -> text) :
  str_contains (label_of missing) txt = false ->
  (forall f, f <> missing ->
     first (label_of f) txt (num f) /\ readable (num f)) ->
  exists caps,
    capacities txt = Ok caps
    /\ component missing caps = None
    /\ forall f, f <> missing -> component f caps = Some (value (num f)).
Proof.
  intros Habs Hothers. unfold extract_capacities.
  destruct missing.
  - destruct (Hothers Fridge ltac:(discriminate)) as [Hr Cr].
    destruct (Hothers Freezer ltac:(discriminate)) as [Hz Cz].
    simpl label_of in *.
    rewrite (find_l_label_absent _ _ _ _ Habs).
    rewrite (find_l_first_field _ _ _ _ _ Hr Cr).
    rewrite (find_l_first_field _ _ _ _ _ Hz Cz).
    eexists. split; [reflexivity|]. split; [reflexivity|].
    intros [] Hf; [congruence|reflexivity|reflexivity].
  - destruct (Hothers Total ltac:(discriminate)) as [Ht Ct].
    destruct (Hothers Freezer ltac:(discriminate)) as [Hz Cz].
    simpl label_of in *.
    rewrite (find_l_first_field _ _ _ _ _ Ht Ct).
    rewrite (find_l_label_absent _ _ _ _ Habs).
    rewrite (find_l_first_field _ _ _ _ _ Hz Cz).
    eexists. split; [reflexivity|]. split; [reflexivity|].
    intros [] Hf; [reflexivity|congruence|reflexivity].
  - destruct (Hothers Total ltac:(discriminate)) as [Ht Ct].
    destruct (Hothers Fridge ltac:(discriminate)) as [Hr Cr].
    simpl label_of in *.
    rewrite (find_l_first_field _ _ _ _ _ Ht Ct).
    rewrite (find_l_first_field _ _ _ _ _ Hr Cr).
    rewrite (find_l_label_absent _ _ _ _ Habs).
    eexists. split; [reflexivity|]. split; [reflexivity|].
    intros [] Hf; [reflexivity|reflexivity|congruence].
Qed.

End SpecParser.

(** The three fields in another order than the parser returns them, behind
    a word that begins with a label, with and without colon: "1,234" is
    read as 1234. *)
Lemma extract_capacities_three_fields_witness :
  extract_capacities ascii_only 4300
    (py "냉장고 냉동: 367L/총용량: 1,234L/냉장 503 L")
  = Ok (Some 1234%Z, Some 503%Z, Some 367%Z).
Proof.
  apply (extract_capacities_three_fields ascii_only 4300 _
           (py "1,234") (py "503") (py "367")).
  - apply first_field_search. vm_compute. reflexivity.
  - split; vm_compute; reflexivity.
  - apply first_field_search. vm_compute. reflexivity.
  - split; vm_compute; reflexivity.
  - apply first_field_search. vm_compute. reflexivity.
  - split; vm_compute; reflexivity.
Defined.

Lemma extract_capacities_one_label_missing_witness :
  exists caps,
    extract_capacities ascii_only 4300 (py "총용량: 870L/냉장: 503L/") = Ok caps
    /\ component Freezer caps = None
    /\ forall f, f <> Freezer ->
         component f caps = Some (number_of ascii_only (two_fields f)).
Proof.
  apply (extract_capacities_one_label_missing ascii_only 4300 _ Freezer two_fields).
  - vm_compute. reflexivity.
  - intros [] Hf; try congruence;
      (split; [apply first_field_search; vm_compute; reflexivity
              | split; vm_compute; reflexivity]).
Defined.

(* ================================================================== *)
(** ** The item extractor *)

Section Extractor.
Variable unicode_decimal : char -> option N.
Variable int_max_str_digits : N.

Local Abbreviation capacities := (extract_capacities unicode_decimal int_max_str_digits).
Local Abbreviation emit := (emit_row unicode_decimal int_max_str_digits).
Local Abbreviation body := (parse_item unicode_decimal int_max_str_digits).
Local Abbreviation loop := (for_items unicode_decimal int_max_str_digits).
Local Abbreviation rows_of := (emitted unicode_decimal int_max_str_digits).

Lemma emit_row_some name spec_text row :
  emit name spec_text = Ok (Some row) ->
  exists total_l fridge_l freezer_l,
    capacities spec_text = Ok (Some total_l, Some fridge_l, Some freezer_l)
    /\ row = (name, total_l, freezer_l, fridge_l).
Proof.
  unfold emit_row. destruct (capacities spec_text) as [[[t r] z]|e]; simpl;
    [|discriminate].
  destruct t as [t|], r as [r|], z as [z|]; try discriminate.
  intros H. injection H as <-. exists t, r, z. auto.
Qed.

Lemma emit_row_missing name spec_text caps :
  capacities spec_text = Ok caps ->
  (exists f, component f caps = None) ->
  emit name spec_text = Ok None.
Proof.
  unfold emit_row. intros -> [f Hf]. destruct caps as [[t r] z].
  destruct f; simpl in Hf; subst; simpl.
  - reflexivity.
  - destruct t; reflexivity.
  - destruct t; [destruct r|]; reflexivity.
Qed.

Lemma parse_item_some item row :
  body item = Ok (Some row) ->
  exists name_el spec_el total_l fridge_l freezer_l,
    select_one item SEL_NAME = Some name_el
    /\ (select_one item SEL_SPEC_LIST = Some spec_el
        \/ select_one item SEL_SPEC_LIST = None
           /\ select_one item SEL_PROD_SPEC_SET = Some spec_el)
    /\ capacities (get_text spec_el) = Ok (Some total_l, Some fridge_l, Some freezer_l)
    /\ row = (get_text name_el, total_l, freezer_l, fridge_l).
Proof.
  unfold parse_item.
  destruct (select_one item SEL_NAME) as [name_el|]; [|discriminate].
  destruct (select_one item SEL_SPEC_LIST) as [el|] eqn:E1.
  - intros H. apply emit_row_some in H. destruct H as (t & r & z & Hc & ->).
    exists name_el, el, t, r, z. auto.
  - destruct (select_one item SEL_PROD_SPEC_SET) as [el|] eqn:E2; [|discriminate].
    intros H. apply emit_row_some in H. destruct H as (t & r & z & Hc & ->).
    exists name_el, el, t, r, z. auto.
Qed.

Lemma for_items_rows items results rows :
  loop items results = Ok rows ->
  rows = results ++ flat_map rows_of items.
Proof.
  revert results. induction items as [|item items IH]; intros results H; simpl in H.
  - injection H as <-. simpl. rewrite List.app_nil_r. reflexivity.
  - unfold emitted. simpl flat_map.
    destruct (body item) as [[row|]|e]; simpl in H; [| |discriminate].
    + apply IH in H. rewrite <- List.app_assoc in H. exact H.
    + apply IH in H. exact H.
Qed.

Lemma parse_items_rows items rows :
  parse_items unicode_decimal int_max_str_digits items = Ok rows ->
  rows = flat_map rows_of items.
Proof. intros H. apply for_items_rows in H. exact H. Qed.

Lemma emitted_length items :
  (List.length (flat_map rows_of items) <= List.length items)%nat.
Proof.
  induction items as [|item items IH]; simpl; [lia|].
  rewrite length_app. unfold emitted at 1.
  destruct (body item) as [[row|]|e]; simpl; lia.
Qed.

(** C1.  On the candidates of a page, a row is appended only for a
    candidate whose spec text gives the three capacities, and it carries
    these three integers; a candidate with a capacity missing gives no row;
    the rows of the page are those of its candidates in their order, so
    they are at most as many as the candidates. *)
Theorem parse_current_page_all_or_nothing (items : list Item) (rows : list ProductRow) :
  parse_items unicode_decimal int_max_str_digits items = Ok rows ->
  (List.length rows <= List.length items)%nat
  /\ rows = flat_map rows_of items
  /\ (forall row, In row rows ->
        exists item name_el spec_el total_l fridge_l freezer_l,
          In item items
          /\ select_one item SEL_NAME = Some name_el
          /\ (select_one item SEL_SPEC_LIST = Some spec_el
              \/ select_one item SEL_SPEC_LIST = None
                 /\ select_one item SEL_PROD_SPEC_SET = Some spec_el)
          /\ capacities (get_text spec_el)
             = Ok (Some total_l, Some fridge_l, Some freezer_l)
          /\ row = (get_text name_el, total_l, freezer_l, fridge_l))
  /\ (forall item name_el spec_el caps,
        In item items ->
        select_one item SEL_NAME = Some name_el ->
        (select_one item SEL_SPEC_LIST = Some spec_el
         \/ select_one item SEL_SPEC_LIST = None
            /\ select_one item SEL_PROD_SPEC_SET = Some spec_el) ->
        capacities (get_text spec_el) = Ok caps ->
        (exists f, component f caps = None) ->
        rows_of item = []).
Proof.
  intros H. apply parse_items_rows in H. subst rows.
  split; [apply emitted_length|]. split; [reflexivity|]. split.
  - intros row Hin. apply in_flat_map in Hin. destruct Hin as (item & Hitem & Hrow).
    unfold emitted in Hrow.
    destruct (body item) as [[row'|]|e] eqn:E; simpl in Hrow; try contradiction.
    destruct Hrow as [->|[]].
    apply parse_item_some in E.
    destruct E as (name_el & spec_el & t & r & z & Hn & Hs & Hc & ->).
    exists item, name_el, spec_el, t, r, z. auto 10.
  - intros item name_el spec_el caps _ Hn Hs Hc Hmiss.
    unfold emitted, parse_item. rewrite Hn.
    destruct Hs as [Hs|[Hs1 Hs2]].
    + rewrite Hs, (emit_row_missing _ _ _ Hc Hmiss). reflexivity.
    + rewrite Hs1, Hs2, (emit_row_missing _ _ _ Hc Hmiss). reflexivity.
Qed.

(** C8.  The spec text is taken from [div.spec_list]; [div.prod_spec_set]
    is used only when [div.spec_list] is absent; a candidate without name,
    or with neither spec block, gives no row, and the loop goes on with the
    candidates after it as if it had not been there. *)
Theorem parse_item_selectors :
  (forall item,
     select_one item SEL_NAME = None -> body item = Ok None)
  /\ (forall item name_el spec_el,
        select_one item SEL_NAME = Some name_el ->
        select_one item SEL_SPEC_LIST = Some spec_el ->
        body item = emit (get_text name_el) (get_text spec_el))
  /\ (forall item name_el spec_el,
        select_one item SEL_NAME = Some name_el ->
        select_one item SEL_SPEC_LIST = None ->
        select_one item SEL_PROD_SPEC_SET = Some spec_el ->
        body item = emit (get_text name_el) (get_text spec_el))
  /\ (forall item,
        select_one item SEL_SPEC_LIST = None ->
        select_one item SEL_PROD_SPEC_SET = None ->
        body item = Ok None)
  /\ (forall item before behind results,
        body item = Ok None ->
        loop (before ++ item :: behind) results = loop (before ++ behind) results).
Proof.
  repeat split.
  - intros item H. unfold parse_item. rewrite H. reflexivity.
  - intros item name_el spec_el Hn Hs. unfold parse_item. rewrite Hn, Hs. reflexivity.
  - intros item name_el spec_el Hn Hs1 Hs2. unfold parse_item.
    rewrite Hn, Hs1, Hs2. reflexivity.
  - intros item Hs1 Hs2. unfold parse_item. rewrite Hs1, Hs2.
    destruct (select_one item SEL_NAME); reflexivity.
  - intros item before behind results H. revert results.
    induction before as [|b before IH]; intros results; simpl.
    + rewrite H. reflexivity.
    + destruct (body b) as [[row|]|e]; simpl; auto.
Qed.

(** C4.  A page with the one card "ABC Fridge", spec text
    "총용량: 870L/냉장: 503L/냉동: 367L/", gives the one row
    ("ABC Fridge", 870, 367, 503): the parser returns total, fridge, freezer,
    and the row holds total, freezer, fridge. *)
Theorem abc_fridge_row :
  capacities ABC_SPEC = Ok (Some 870%Z, Some 503%Z, Some 367%Z)
  /\ parse_items unicode_decimal int_max_str_digits [ABC_ITEM]
     = Ok [(py "ABC Fridge", 870%Z, 367%Z, 503%Z)]
  /\ fst (parse_current_page unicode_decimal int_max_str_digits
            (listing [[ABC_ITEM]]) (start 0%nat))
     = Ok [(py "ABC Fridge", 870%Z, 367%Z, 503%Z)].
Proof.
  repeat split; vm_compute; reflexivity.
Qed.

End Extractor.

(* ================================================================== *)
(** ** [str] names each page number apart *)





(* ================================================================== *)
(** ** The pagination advancer *)

Section Advancer.
Context {W : Type} (site : Site W).

Local Abbreviation advance := (go_to_next_page site).


End Advancer.

(* ================================================================== *)
(** ** The crawl loop and [main] *)

Lemma nav_calls_silent ud lim (cs : list call) :
  forallb nav_call cs = true ->
  logged_rows ud lim cs = [] /\ page_loads cs = 0%nat /\ quits cs = 0%nat
  /\ forallb crawl_call cs = true.
Proof.
  induction cs as [|c cs IH]; intros H; [repeat split|].
  simpl in H. apply andb_true_iff in H. destruct H as [Hc H].
  destruct (IH H) as (H1 & H2 & H3 & H4).
  unfold page_loads, quits in *.
  destruct c; try discriminate; simpl; auto.
Qed.

Lemma logged_rows_app ud lim (cs1 cs2 : list call) :
  logged_rows ud lim (cs1 ++ cs2) = logged_rows ud lim cs1 ++ logged_rows ud lim cs2.
Proof. apply flat_map_app. Qed.

Lemma page_loads_app (cs1 cs2 : list call) :
  page_loads (cs1 ++ cs2) = (page_loads cs1 + page_loads cs2)%nat.
Proof. unfold page_loads. rewrite filter_app, length_app. reflexivity. Qed.







Section Crawl.
Variable unicode_decimal : char -> option N.
Variable int_max_str_digits : N.
Context {W : Type} (site : Site W).

Local Abbreviation advance := (go_to_next_page site).
Local Abbreviation page_rows_of := (parse_items unicode_decimal int_max_str_digits).
Local Abbreviation parse_page := (parse_current_page unicode_decimal int_max_str_digits site).
Local Abbreviation loop := (crawl_loop unicode_decimal int_max_str_digits site).
Local Abbreviation rows_in := (logged_rows unicode_decimal int_max_str_digits).

(** The advancer returns, and only makes navigation calls. *)
Lemma go_to_next_page_run (K : Z) (st : state) :
  exists b st' cs,
    advance K st = (Ok b, st')
    /\ calls st' = calls st ++ cs /\ files st' = files st
    /\ forallb nav_call cs = true.
Proof.
  unfold go_to_next_page, numeric_link_attempt, next_button_attempt,
    try_except_timeout, bind, until_clickable, get_attribute, click_through,
    execute_script, sleep, record, ret.
  cbn [world calls files].
  destruct (clickable site 3 (XPATH, num_link_xpath (str (K + 1))) (world st))
    as [link|].
  - do 3 eexists. split; [reflexivity|]. cbn [calls files].
    rewrite <- !List.app_assoc. repeat split.
  - cbn [world calls files].
    destruct (clickable site 3 (CSS_SELECTOR, NEXT_BUTTON_CSS) _) as [btn|].
    + cbn [world calls files].
      match goal with
      | |- context [if ?b then _ else _] => destruct b
      end;
        do 3 eexists; (split; [reflexivity|]); cbn [calls files];
        rewrite <- !List.app_assoc; repeat split.
    + do 3 eexists. split; [reflexivity|]. cbn [calls files].
      rewrite <- !List.app_assoc. repeat split.
Qed.

Lemma parse_current_page_run (st : state) :
  exists st',
    parse_page st = (page_rows_of (candidates_of site (world st)), st')
    /\ calls st' = calls st ++ [PageSource (candidates_of site (world st))]
    /\ files st' = files st.
Proof. eexists. repeat split. Qed.

Lemma crawl_loop_step fuel cp rows st :
  loop (S fuel) cp rows st
  = if (cp <=? MAX_PAGES)%Z then
      match parse_page st with
      | (Ok page_rows, st1) =>
        match advance cp st1 with
        | (Ok moved, st2) =>
          if negb moved then (Ok (Some (rows ++ page_rows)), st2)
          else loop fuel (cp + 1)%Z (rows ++ page_rows) st2
        | (Raise e, st2) => (Raise e, st2)
        end
      | (Raise e, st1) => (Raise e, st1)
      end
    else (Ok (Some rows), st).
Proof.
  cbn [crawl_loop]. destruct (cp <=? MAX_PAGES)%Z; [|reflexivity].
  unfold bind at 1. destruct (parse_page st) as [[page_rows|e] st1]; [|reflexivity].
  unfold bind at 1. destruct (advance cp st1) as [[moved|e] st2]; [|reflexivity].
  destruct moved; reflexivity.
Qed.

(** With more fuel than the pages left under the cap, the loop ends; it
    loads at most that many pages and gathers their rows in order. *)
Lemma crawl_loop_run (fuel : nat) :
  forall (cp : Z) (rows : list ProductRow) (st : state),
    (Z.to_nat (MAX_PAGES + 1 - cp) < fuel)%nat ->
    exists r st' cs,
      loop fuel cp rows st = (r, st')
      /\ calls st' = calls st ++ cs /\ files st' = files st
      /\ forallb crawl_call cs = true
      /\ (page_loads cs <= Z.to_nat (MAX_PAGES + 1 - cp))%nat
      /\ match r with
         | Ok (Some all_rows) => all_rows = rows ++ rows_in cs
         | Ok None => False
         | Raise _ => True
         end.
Proof.
  induction fuel as [|fuel IH]; intros cp rows st Hfuel; [lia|].
  rewrite crawl_loop_step.
  destruct (cp <=? MAX_PAGES)%Z eqn:Hcp.
  - apply Z.leb_le in Hcp. unfold MAX_PAGES in *.
    destruct (parse_current_page_run st) as (st1 & E1 & Hc1 & Hf1).
    rewrite E1.
    destruct (page_rows_of (candidates_of site (world st))) as [page_rows|e] eqn:Ep.
    + destruct (go_to_next_page_run cp st1) as (moved & st2 & cs2 & E2 & Hc2 & Hf2 & Hnav).
      rewrite E2.
      destruct (nav_calls_silent unicode_decimal int_max_str_digits cs2 Hnav)
        as (Hrows2 & Hloads2 & _ & Hcrawl2).
      apply parse_items_rows in Ep.
      destruct moved; simpl negb; cbv iota.
      * destruct (IH (cp + 1)%Z (rows ++ page_rows) st2 ltac:(lia))
          as (r & st3 & cs3 & E3 & Hc3 & Hf3 & Hcrawl3 & Hloads3 & Hr).
        exists r, st3, (PageSource (candidates_of site (world st)) :: cs2 ++ cs3).
        split; [exact E3|]. split.
        { rewrite Hc3, Hc2, Hc1, <- !List.app_assoc. reflexivity. }
        split; [congruence|]. split.
        { simpl. rewrite forallb_app, Hcrawl2, Hcrawl3. reflexivity. }
        split.
        { change (PageSource ?i :: ?l) with ([PageSource i] ++ l).
          rewrite !page_loads_app, Hloads2.
          change (page_loads [PageSource _]) with 1%nat. lia. }
        destruct r as [[all_rows|]|e]; auto.
        change (PageSource ?i :: ?l) with ([PageSource i] ++ l).
        rewrite !logged_rows_app, Hrows2. simpl.
        rewrite List.app_nil_r, Hr, Ep, <- List.app_assoc. reflexivity.
      * exists (Ok (Some (rows ++ page_rows))), st2,
          (PageSource (candidates_of site (world st)) :: cs2).
        split; [reflexivity|]. split.
        { rewrite Hc2, Hc1, <- !List.app_assoc. reflexivity. }
        split; [congruence|]. split.
        { simpl. exact Hcrawl2. }
        split.
        { change (PageSource ?i :: ?l) with ([PageSource i] ++ l).
          rewrite !page_loads_app, Hloads2.
          change (page_loads [PageSource _]) with 1%nat. lia. }
        change (PageSource ?i :: ?l) with ([PageSource i] ++ l).
        rewrite !logged_rows_app, Hrows2. simpl.
        rewrite !List.app_nil_r, Ep. reflexivity.
    + exists (Raise e), st1, [PageSource (candidates_of site (world st))].
      repeat split; auto.
      change (page_loads [PageSource _]) with 1%nat. lia.
  - exists (Ok (Some rows)), st, [].
    simpl. rewrite !List.app_nil_r. repeat split. unfold page_loads. simpl. lia.
Qed.



End Crawl.

(** C6.  The crawl loop ends.  Started on page 1 with fuel for one test more
    than [MAX_PAGES], it returns, with its rows or with the exception a page
    raised, after at most [MAX_PAGES] = 200 turns, each of which loads one
    page; on a site where the next page can always be reached it stops after
    exactly 200 turns. *)
Theorem crawl_loop_terminates (ud : char -> option N) (lim : N) :
  (forall (W : Type) (site : Site W) (fuel : nat) (st : state),
     (Z.to_nat MAX_PAGES < fuel)%nat ->
     exists r st' cs,
       crawl_loop ud lim site fuel 1%Z [] st = (r, st')
       /\ r <> Ok None
       /\ calls st' = calls st ++ cs
       /\ (page_loads cs <= Z.to_nat MAX_PAGES)%nat)
  /\ (exists st',
        crawl_loop ud lim endless 201 1%Z [] (start tt) = (Ok (Some []), st')
        /\ page_loads (calls st') = 200%nat).
Proof.
  split.
  - intros W site fuel st Hfuel.
    destruct (crawl_loop_run ud lim site fuel 1%Z [] st Hfuel)
      as (r & st' & cs & E & Hc & _ & _ & Hloads & Hr).
    exists r, st', cs. repeat split; auto.
    intros ->. exact Hr.
  - eexists. split; vm_compute; reflexivity.
Qed.

Lemma crawl_loop_terminates_witness :
  exists r st' cs,
    crawl_loop ascii_only 4300 (listing [[ABC_ITEM]; []; [ABC_ITEM]]) 201 1%Z []
      (start 0%nat) = (r, st')
    /\ r <> Ok None
    /\ calls st' = calls (start 0%nat) ++ cs
    /\ (page_loads cs <= Z.to_nat MAX_PAGES)%nat.
Proof.
  apply (proj1 (crawl_loop_terminates ascii_only 4300)).
  vm_compute. lia.
Defined.




(** C10.  [extract_capacities] raises on some spec texts: in "총용량: ,L"
    the group of the pattern matches ",", which has no digit, [int] of the
    empty string raises [ValueError], and the exception leaves
    [extract_capacities], [parse_current_page] and [main]. *)
Theorem extract_capacities_not_total (ud : char -> option N) (lim : N) :
  re_search ud (capacity_pattern LABEL_TOTAL) NO_DIGIT_SPEC
  = Some (Match (Some [COMMA]))
  /\ str_replace COMMA [] [COMMA] = []
  /\ int_ ud lim [] = Raise ValueError
  /\ extract_capacities ud lim NO_DIGIT_SPEC = Raise ValueError
  /\ parse_items ud lim [NO_DIGIT_ITEM] = Raise ValueError
  /\ fst (main ud lim (listing [[NO_DIGIT_ITEM]]) (start 0%nat))
     = Raise ValueError.
Proof.
  repeat split; vm_compute; reflexivity.
Qed.

Lemma parse_current_page_all_or_nothing_witness :
  (List.length [(py "ABC Fridge", 870%Z, 367%Z, 503%Z)]
   <= List.length
        [ABC_ITEM;
         an_item (Some (py "No Freezer")) None (Some (py "총용량: 870L/냉장: 503L/"));
         an_item None (Some ABC_SPEC) None])%nat.
Proof.
  apply (parse_current_page_all_or_nothing ascii_only 4300).
  vm_compute. reflexivity.
Defined.

Lemma parse_item_selectors_witness :
  parse_item ascii_only 4300 (an_item None (Some ABC_SPEC) None) = Ok None
  /\ parse_item ascii_only 4300
       (an_item (Some (py "A")) (Some ABC_SPEC) (Some (py "B")))
     = emit_row ascii_only 4300
         (get_text (Build_Tag (py "A"))) (get_text (Build_Tag ABC_SPEC))
  /\ parse_item ascii_only 4300 (an_item (Some (py "A")) None (Some ABC_SPEC))
     = emit_row ascii_only 4300
         (get_text (Build_Tag (py "A"))) (get_text (Build_Tag ABC_SPEC))
  /\ parse_item ascii_only 4300 (an_item (Some (py "A")) None None) = Ok None.
Proof.
  destruct (parse_item_selectors ascii_only 4300) as (H1 & H2 & H3 & H4 & _).
  split; [apply H1; vm_compute; reflexivity|].
  split; [apply H2; vm_compute; reflexivity|].
  split; [apply H3; vm_compute; reflexivity|].
  apply H4; vm_compute; reflexivity.
Defined.

(** A run that ends normally: the listing of the one card "ABC Fridge" is
    crawled to a file of a header line and one product line, whose bytes
    begin with the byte-order mark. *)
Example abc_listing_file :
  let run := main ascii_only 4300 (listing [[ABC_ITEM]]) (start 0%nat) in
  fst run = Ok (Some tt)
  /\ option_map file_data (assoc_get OUTPUT_CSV (files (snd run)))
     = Some (py "제품명,총용량(L),냉동(L),냉장(L)" ++ [13; 10]
             ++ py "ABC Fridge,870,367,503" ++ [13; 10])
  /\ option_map (firstn 3)
       (match assoc_get OUTPUT_CSV (files (snd run)) with
        | Some f => file_bytes f
        | None => None
        end)
     = Some [239; 187; 191]
  /\ quits (calls (snd run)) = 1%nat.
Proof.
  repeat split; vm_compute; reflexivity.
Qed.

(* ================================================================== *)
(** ** More on the spec parser: what [find_l] answers, and when it raises *)

Section FindL.
Variable unicode_decimal : char -> option N.
Variable int_max_str_digits : N.

Local Abbreviation matches := (match_here unicode_decimal).
Local Abbreviation search := (re_search unicode_decimal).
Local Abbreviation numeric := (number_char unicode_decimal).
Local Abbreviation field := (field_at unicode_decimal).
Local Abbreviation first := (first_field unicode_decimal).
Local Abbreviation readable := (convertible unicode_decimal int_max_str_digits).
Local Abbreviation value := (number_of unicode_decimal).
Local Abbreviation find := (find_l unicode_decimal int_max_str_digits).
Local Abbreviation capacities := (extract_capacities unicode_decimal int_max_str_digits).

Lemma re_search_none_inv r s :
  search r s = None ->
  forall s1 s2, s = s1 ++ s2 -> matches r s2 None = None.
Proof.
  induction s as [|c s IH]; intros H s1 s2 E.
  - symmetry in E. apply app_eq_nil in E. destruct E as [-> ->].
    simpl in H. destruct (matches r [] None); [discriminate|reflexivity].
  - rewrite re_search_cons in H.
    destruct (matches r (c :: s) None) eqn:G; [discriminate|]. simpl in H.
    destruct s1 as [|d s1]; simpl in E.
    + subst s2. exact G.
    + injection E as _ E. apply (IH H s1 s2 E).
Qed.

Lemma first_field_unique (label txt n1 n2 : text) :
  first label txt n1 -> first label txt n2 -> n1 = n2.
Proof.
  intros H1 H2. apply first_field_search in H1. apply first_field_search in H2.
  congruence.
Qed.

Lemma first_field_written (label txt num : text) :
  first label txt num -> forallb numeric num = true.
Proof.
  intros (pre & rest & _ & Hat & _). apply (field_at_written _ _ _ _ Hat).
Qed.

Lemma readable_dec (num : text) : readable num \/ ~ readable num.
Proof.
  unfold convertible.
  destruct (existsb (is_digit unicode_decimal) num);
    destruct (over_digit_limit int_max_str_digits (digit_count unicode_decimal num));
    intuition congruence.
Qed.

Lemma int_unreadable (num : text) :
  forallb numeric num = true -> ~ readable num ->
  int_ unicode_decimal int_max_str_digits (str_replace COMMA [] num)
  = Raise ValueError.
Proof.
  intros H Hno.
  destruct (existsb (is_digit unicode_decimal) num) eqn:Hd.
  - destruct (digit_values_written unicode_decimal num H) as (ds & Hds & _ & Hlen).
    unfold int_. rewrite Hds.
    destruct ds as [|d ds]; [reflexivity|].
    destruct (over_digit_limit int_max_str_digits
                (N.of_nat (List.length (d :: ds)))) eqn:Hover; [reflexivity|].
    exfalso. apply Hno. split; [exact Hd|].
    unfold digit_count. rewrite <- Hlen. exact Hover.
  - apply int_no_digit; assumption.
Qed.

(** The three ways [find_l] can end. *)
Lemma find_l_cases (label txt : text) :
  (search (capacity_pattern label) txt = None
   /\ find (capacity_pattern label) txt = Ok None)
  \/ (exists num, first label txt num /\ readable num
        /\ find (capacity_pattern label) txt = Ok (Some (value num)))
  \/ (exists num, first label txt num /\ ~ readable num
        /\ find (capacity_pattern label) txt = Raise ValueError).
Proof.
  destruct (search (capacity_pattern label) txt) as [m|] eqn:E.
  - right.
    assert (Hm : exists num, m = Match (Some num)).
    { apply re_search_sound in E. destruct E as (pre & rest & _ & Hm & _).
      apply match_here_captures in Hm. destruct Hm as (num & -> & _). eauto. }
    destruct Hm as (num & ->).
    pose proof (proj2 (first_field_search unicode_decimal label txt num) E) as Hf.
    destruct (readable_dec num) as [Hr|Hr].
    + left. exists num. split; [exact Hf|]. split; [exact Hr|].
      apply find_l_first_field; assumption.
    + right. exists num. split; [exact Hf|]. split; [exact Hr|].
      unfold find_l. rewrite E. cbn [group1].
      rewrite int_unreadable; [reflexivity| |exact Hr].
      apply (first_field_written _ _ _ Hf).
  - left. split; [reflexivity|]. unfold find_l. rewrite E. reflexivity.
Qed.

Lemma find_l_raise (label txt : text) (e : exn) :
  find (capacity_pattern label) txt = Raise e -> e = ValueError.
Proof.
  intros H.
  destruct (find_l_cases label txt) as [[_ E]|[(n & _ & _ & E)|(n & _ & _ & E)]];
    congruence.
Qed.

Lemma extract_capacities_raise (txt : text) (e : exn) :
  capacities txt = Raise e -> e = ValueError.
Proof.
  unfold extract_capacities. intros H.
  destruct (find (capacity_pattern LABEL_TOTAL) txt) as [t|et] eqn:Et; simpl in H;
    [|injection H as <-; apply (find_l_raise _ _ _ Et)].
  destruct (find (capacity_pattern LABEL_FRIDGE) txt) as [r|er] eqn:Er; simpl in H;
    [|injection H as <-; apply (find_l_raise _ _ _ Er)].
  destruct (find (capacity_pattern LABEL_FREEZER) txt) as [z|ez] eqn:Ez; simpl in H;
    [discriminate|injection H as <-; apply (find_l_raise _ _ _ Ez)].
Qed.

Lemma field_at_has_unit (label s num : text) :
  field label s num -> In LETTER_L s.
Proof.
  intros (ws1 & colon & ws2 & ws3 & post & -> & _).
  do 6 (apply in_or_app; right). left. reflexivity.
Qed.

(** X1.  [find_l] invents nothing: an integer it returns is the number
    written in the first field of that label in the text, commas skipped,
    and it is never negative. *)
Theorem find_l_sound (label txt : text) (n : Z) :
  find (capacity_pattern label) txt = Ok (Some n) ->
  exists num,
    first label txt num /\ readable num /\ n = value num /\ (0 <= n)%Z.
Proof.
  intros H.
  destruct (find_l_cases label txt) as [[_ E]|[(num & Hf & Hr & E)|(num & _ & _ & E)]];
    rewrite E in H; try discriminate.
  injection H as <-. exists num.
  split; [exact Hf|]. split; [exact Hr|]. split; [reflexivity|].
  unfold number_of. apply N2Z.is_nonneg.
Qed.

(** X2.  [find_l] returns [None] exactly when no position of the text
    begins a field of that label: a label that occurs without a number and
    the unit [L] after it counts as absent. *)
Theorem find_l_none_iff (label txt : text) :
  find (capacity_pattern label) txt = Ok None <->
  (forall s1 s2 num, txt = s1 ++ s2 -> ~ field label s2 num).
Proof.
  split.
  - intros H s1 s2 num E Hat.
    destruct (find_l_cases label txt) as [[Hs _]|[(n & _ & _ & E')|(n & _ & _ & E')]];
      try (rewrite E' in H; discriminate).
    apply match_here_field in Hat.
    rewrite (re_search_none_inv _ _ Hs s1 s2 E) in Hat. discriminate.
  - intros H. unfold find_l. rewrite re_search_none; [reflexivity|].
    intros s1 s2 E.
    destruct (matches (capacity_pattern label) s2 None) eqn:G; [|reflexivity].
    apply match_here_captures in G. destruct G as (num & _ & G).
    exfalso. apply (H s1 s2 num E G).
Qed.

(** X3.  [extract_capacities] raises exactly when the first field of one of
    the three labels has a number that cannot be converted (no digit, or
    more digits than the interpreter converts), and then it raises
    [ValueError]: no other exception leaves it. *)
Theorem extract_capacities_raises_iff (txt : text) (e : exn) :
  capacities txt = Raise e <->
  e = ValueError
  /\ exists f num, first (label_of f) txt num /\ ~ readable num.
Proof.
  unfold extract_capacities. split.
  - intros H.
    destruct (find_l_cases LABEL_TOTAL txt)
      as [[_ Et]|[(nt & _ & _ & Et)|(nt & Hf & Hr & Et)]]; rewrite Et in H;
      simpl in H;
      try (injection H as <-; split; [reflexivity|]; exists Total, nt; auto);
    (destruct (find_l_cases LABEL_FRIDGE txt)
      as [[_ Er]|[(nr & _ & _ & Er)|(nr & Hf & Hr & Er)]]; rewrite Er in H;
      simpl in H;
      try (injection H as <-; split; [reflexivity|]; exists Fridge, nr; auto));
    (destruct (find_l_cases LABEL_FREEZER txt)
      as [[_ Ez]|[(nz & _ & _ & Ez)|(nz & Hf & Hr & Ez)]]; rewrite Ez in H;
      simpl in H;
      try (injection H as <-; split; [reflexivity|]; exists Freezer, nz; auto));
    discriminate.
  - intros [-> (f & num & Hf & Hr)].
    assert (Hbad : find (capacity_pattern (label_of f)) txt = Raise ValueError).
    { destruct (find_l_cases (label_of f) txt)
        as [[Hs _]|[(n & Hf' & Hr' & _)|(n & _ & _ & E)]]; [| |exact E].
      - apply first_field_search in Hf. congruence.
      - rewrite (first_field_unique _ _ _ _ Hf Hf') in Hr. contradiction. }
    destruct (find_l_cases LABEL_TOTAL txt)
      as [[_ Et]|[(nt & _ & _ & Et)|(nt & _ & _ & Et)]]; rewrite Et; simpl;
      try reflexivity;
    (destruct (find_l_cases LABEL_FRIDGE txt)
      as [[_ Er]|[(nr & _ & _ & Er)|(nr & _ & _ & Er)]]; rewrite Er; simpl;
      try reflexivity);
    (destruct (find_l_cases LABEL_FREEZER txt)
      as [[_ Ez]|[(nz & _ & _ & Ez)|(nz & _ & _ & Ez)]]; rewrite Ez; simpl;
      try reflexivity);
    destruct f; simpl in Hbad; congruence.
Qed.

(** X4.  The unit is the capital letter L: a spec text in which it does not
    occur gives [None] for the three capacities, and no exception. *)
Theorem extract_capacities_without_unit (txt : text) :
  ~ In LETTER_L txt ->
  capacities txt = Ok (None, None, None).
Proof.
  intros H.
  assert (Hnone : forall label, find (capacity_pattern label) txt = Ok None).
  { intros label. apply find_l_none_iff. intros s1 s2 num -> Hat.
    apply H. apply in_or_app. right. apply (field_at_has_unit _ _ _ Hat). }
  unfold extract_capacities. rewrite !Hnone. reflexivity.
Qed.

End FindL.

Lemma find_l_sound_witness :
  exists num,
    first_field ascii_only (py "냉장") (py "냉장고 / 냉장 : 1,503 L") num
    /\ convertible ascii_only 4300 num
    /\ 1503%Z = number_of ascii_only num /\ (0 <= 1503)%Z.
Proof.
  apply (find_l_sound ascii_only 4300).
  vm_compute. reflexivity.
Defined.

Lemma extract_capacities_without_unit_witness :
  extract_capacities ascii_only 4300 (py "총용량: 870l/냉장: 503리터")
  = Ok (None, None, None).
Proof.
  apply extract_capacities_without_unit.
  vm_compute. intuition discriminate.
Defined.

(* ================================================================== *)
(** ** More on the item extractor: pages with a card that raises *)

Section Pages.
Variable unicode_decimal : char -> option N.
Variable int_max_str_digits : N.

Local Abbreviation body := (parse_item unicode_decimal int_max_str_digits).
Local Abbreviation loop := (for_items unicode_decimal int_max_str_digits).
Local Abbreviation page := (parse_items unicode_decimal int_max_str_digits).

Lemma parse_item_raise (item : Item) (e : exn) :
  body item = Raise e -> e = ValueError.
Proof.
  unfold parse_item, emit_row.
  destruct (select_one item SEL_NAME) as [name_el|]; [|discriminate].
  destruct (select_one item SEL_SPEC_LIST) as [el|];
    [|destruct (select_one item SEL_PROD_SPEC_SET) as [el|]; [|discriminate]];
    (destruct (extract_capacities unicode_decimal int_max_str_digits (get_text el))
       as [[[[t|] [r|]] [z|]]|e'] eqn:E; simpl; try discriminate;
     intros H; injection H as <-;
     apply (extract_capacities_raise _ _ _ _ E)).
Qed.

Lemma for_items_raises (items : list Item) (results : list ProductRow) (e : exn) :
  loop items results = Raise e <->
  exists before item behind,
    items = before ++ item :: behind
    /\ (forall i, In i before -> exists r, body i = Ok r)
    /\ body item = Raise e.
Proof.
  revert results. induction items as [|i items IH]; intros results; simpl.
  - split; [discriminate|].
    intros (before & item & behind & E & _). destruct before; discriminate.
  - destruct (body i) as [r|e'] eqn:Ei; simpl.
    + rewrite IH. split.
      * intros (before & item & behind & -> & Hok & Hbad).
        exists (i :: before), item, behind. split; [reflexivity|]. split; [|exact Hbad].
        intros j [<-|Hj]; eauto.
      * intros (before & item & behind & E & Hok & Hbad).
        destruct before as [|b before]; simpl in E; injection E as <- ->.
        -- congruence.
        -- exists before, item, behind. split; [reflexivity|].
           split; [|exact Hbad]. intros j Hj. apply Hok. right. exact Hj.
    + split.
      * intros H. injection H as <-.
        exists [], i, items. split; [reflexivity|]. split; [intros ? []|exact Ei].
      * intros (before & item & behind & E & Hok & Hbad).
        destruct before as [|b before]; simpl in E; injection E as <- ->.
        -- congruence.
        -- destruct (Hok i (or_introl eq_refl)) as (r & Hr). congruence.
Qed.

Lemma for_items_from (items : list Item) (results : list ProductRow) :
  loop items results
  = rbind (loop items []) (fun rows => Ok (results ++ rows)).
Proof.
  revert results. induction items as [|i items IH]; intros results; simpl.
  - rewrite List.app_nil_r. reflexivity.
  - destruct (body i) as [[row|]|e]; simpl; [| |reflexivity].
    + rewrite (IH (results ++ [row])), (IH [row]).
      destruct (loop items []); simpl; [|reflexivity].
      rewrite <- List.app_assoc. reflexivity.
    + rewrite (IH results).
      destruct (loop items []) as [rows|e]; reflexivity.
Qed.

Lemma for_items_app (a b : list Item) (results : list ProductRow) :
  loop (a ++ b) results = rbind (loop a results) (loop b).
Proof.
  revert results. induction a as [|i a IH]; intros results; simpl; [reflexivity|].
  destruct (body i) as [r|e]; simpl; [apply IH|reflexivity].
Qed.

(** X5.  One card that raises loses the whole page: [parse_current_page]
    raises exactly when some candidate raises, with the exception of the
    first such candidate in page order, and the rows of the candidates
    before it are not returned. *)
Theorem parse_current_page_raises_iff (items : list Item) (e : exn) :
  page items = Raise e <->
  exists before item behind,
    items = before ++ item :: behind
    /\ (forall i, In i before -> exists r, body i = Ok r)
    /\ body item = Raise e.
Proof. apply for_items_raises. Qed.

(** X6.  The rows of a page are those of any first part of its candidates
    followed by those of the rest: parsing a list of candidates cut in two
    gives the two results one after the other, or the exception of the
    first part, or else of the second. *)
Theorem parse_current_page_app (a b : list Item) :
  page (a ++ b)
  = rbind (page a) (fun rows_a =>
      rbind (page b) (fun rows_b => Ok (rows_a ++ rows_b))).
Proof.
  unfold parse_items. rewrite for_items_app.
  destruct (loop a []) as [rows_a|e]; simpl; [|reflexivity].
  apply for_items_from.
Qed.

End Pages.

(* ================================================================== *)
(** ** More on the advancer and the loop: clicks, waits and pages *)

Lemma query_calls_count (cs : list call) :
  forallb query_call cs = true ->
  clicks_made cs = 0%nat /\ scripts_run cs = 0%nat /\ slept cs = 0
  /\ page_loads cs = 0%nat /\ forallb nav_call cs = true.
Proof.
  induction cs as [|c cs IH]; intros H; [repeat split|].
  simpl in H. apply andb_true_iff in H. destruct H as [Hc H].
  destruct (IH H) as (H1 & H2 & H3 & H4 & H5).
  unfold clicks_made, scripts_run, page_loads in *.
  destruct c; try discriminate; simpl; auto.
Qed.

Lemma clicks_made_app (cs1 cs2 : list call) :
  clicks_made (cs1 ++ cs2) = (clicks_made cs1 + clicks_made cs2)%nat.
Proof. unfold clicks_made. rewrite filter_app, length_app. reflexivity. Qed.




Lemma clicks_count (el : WebElement) :
  clicks_made (clicks el) = 1%nat /\ scripts_run (clicks el) = 2%nat
  /\ slept (clicks el) = 2500 /\ waits_made (clicks el) = 0%nat
  /\ page_loads (clicks el) = 0%nat.
Proof. repeat split; vm_compute; reflexivity. Qed.

Section Counting.
Variable unicode_decimal : char -> option N.
Variable int_max_str_digits : N.
Context {W : Type} (site : Site W).

Local Abbreviation advance := (go_to_next_page site).
Local Abbreviation page_rows_of := (parse_items unicode_decimal int_max_str_digits).
Local Abbreviation parse_page := (parse_current_page unicode_decimal int_max_str_digits site).
Local Abbreviation loop := (crawl_loop unicode_decimal int_max_str_digits site).

(** The calls of the advancer: one or two waits, with the class read after
    the second, and the four calls of a click when it returns [True]. *)
Lemma go_to_next_page_shape (K : Z) (st : state) :
  exists b st' asked,
    advance K st
    = (Ok b, st')
    /\ files st' = files st
    /\ forallb query_call asked = true
    /\ (1 <= waits_made asked <= 2)%nat
    /\ xpath_waits asked = [num_link_xpath (str (K + 1))]
    /\ if b then exists el, calls st' = calls st ++ asked ++ clicks el
       else calls st' = calls st ++ asked.
Proof.
  unfold go_to_next_page, numeric_link_attempt, next_button_attempt,
    try_except_timeout, bind, until_clickable, get_attribute, click_through,
    execute_script, sleep, record, ret.
  cbn [world calls files].
  destruct (clickable site 3 (XPATH, num_link_xpath (str (K + 1))) (world st))
    as [link|].
  - exists true. eexists.
    exists [UntilClickable 3 (XPATH, num_link_xpath (str (K + 1))) (Some link)].
    split; [reflexivity|]. cbn [calls files].
    split; [reflexivity|]. split; [reflexivity|].
    split; [unfold waits_made; simpl; lia|]. split; [reflexivity|].
    exists link. unfold clicks. rewrite <- !List.app_assoc. reflexivity.
  - cbn [world calls files].
    set (timed_out := UntilClickable 3 (XPATH, num_link_xpath (str (K + 1))) None).
    destruct (clickable site 3 (CSS_SELECTOR, NEXT_BUTTON_CSS) _) as [btn|] eqn:E2.
    + cbn [world calls files].
      set (found := UntilClickable 3 (CSS_SELECTOR, NEXT_BUTTON_CSS) (Some btn)).
      set (attr := attribute site btn (py "class") _).
      match goal with
      | |- context [if ?b then _ else _] => destruct b
      end.
      * exists false. eexists.
        exists [timed_out; found; GetAttribute btn (py "class") attr].
        split; [reflexivity|]. cbn [calls files].
        split; [reflexivity|]. split; [reflexivity|].
        split; [unfold waits_made; simpl; lia|]. split; [reflexivity|].
        rewrite <- !List.app_assoc. reflexivity.
      * exists true. eexists.
        exists [timed_out; found; GetAttribute btn (py "class") attr].
        split; [reflexivity|]. cbn [calls files].
        split; [reflexivity|]. split; [reflexivity|].
        split; [unfold waits_made; simpl; lia|]. split; [reflexivity|].
        exists btn. unfold clicks. rewrite <- !List.app_assoc. reflexivity.
    + exists false. eexists.
      exists [timed_out; UntilClickable 3 (CSS_SELECTOR, NEXT_BUTTON_CSS) None].
      split; [reflexivity|]. cbn [calls files].
      split; [reflexivity|]. split; [reflexivity|].
      split; [unfold waits_made; simpl; lia|]. split; [reflexivity|].
      rewrite <- !List.app_assoc. reflexivity.
Qed.


(** Pages loaded against clicks made in the loop. *)
Lemma crawl_loop_counts (fuel : nat) :
  forall (cp : Z) (rows : list ProductRow) (st : state),
    (Z.to_nat (MAX_PAGES + 1 - cp) < fuel)%nat ->
    exists r st' cs,
      loop fuel cp rows st = (r, st')
      /\ calls st' = calls st ++ cs
      /\ match r with
         | Ok (Some _) =>
           ((cp <= MAX_PAGES)%Z -> (1 <= page_loads cs)%nat)
           /\ ((clicks_made cs + 1)%nat = page_loads cs
               \/ clicks_made cs = page_loads cs
                  /\ page_loads cs = Z.to_nat (MAX_PAGES + 1 - cp))
         | Ok None => False
         | Raise e =>
           e = ValueError /\ (clicks_made cs + 1)%nat = page_loads cs
         end.
Proof.
  induction fuel as [|fuel IH]; intros cp rows st Hfuel; [lia|].
  rewrite crawl_loop_step.
  destruct (cp <=? MAX_PAGES)%Z eqn:Hcp.
  - apply Z.leb_le in Hcp. unfold MAX_PAGES in *.
    destruct (parse_current_page_run unicode_decimal int_max_str_digits site st)
      as (st1 & E1 & Hc1 & _).
    rewrite E1.
    destruct (page_rows_of (candidates_of site (world st))) as [page_rows|e] eqn:Ep.
    + destruct (go_to_next_page_shape cp st1)
        as (moved & st2 & asked & E2 & _ & Hq & _ & _ & Hc2).
      rewrite E2.
      destruct (query_calls_count asked Hq) as (Q1 & _ & _ & Q4 & _).
      destruct moved; simpl negb; cbv iota.
      * destruct Hc2 as (el & Hc2).
        destruct (clicks_count el) as (C1 & _ & _ & _ & C5).
        destruct (IH (cp + 1)%Z (rows ++ page_rows) st2 ltac:(lia))
          as (r & st3 & cs3 & E3 & Hc3 & Hr).
        exists r, st3,
          ([PageSource (candidates_of site (world st))] ++ (asked ++ clicks el) ++ cs3).
        split; [exact E3|]. split.
        { rewrite Hc3, Hc2, Hc1, <- !List.app_assoc. reflexivity. }
        rewrite !page_loads_app, !clicks_made_app, Q1, Q4, C1, C5.
        change (page_loads [PageSource _]) with 1%nat.
        change (clicks_made [PageSource _]) with 0%nat.
        destruct r as [[all_rows|]|e]; [| exact Hr |].
        -- destruct Hr as [_ Hr]. split; [lia|]. lia.
        -- destruct Hr as [He Hr]. split; [exact He|]. lia.
      * exists (Ok (Some (rows ++ page_rows))), st2,
          ([PageSource (candidates_of site (world st))] ++ asked).
        split; [reflexivity|]. split.
        { rewrite Hc2, Hc1, <- !List.app_assoc. reflexivity. }
        rewrite !page_loads_app, !clicks_made_app, Q1, Q4.
        change (page_loads [PageSource _]) with 1%nat.
        change (clicks_made [PageSource _]) with 0%nat.
        split; [lia|]. left. lia.
    + exists (Raise e), st1, [PageSource (candidates_of site (world st))].
      split; [reflexivity|]. split; [exact Hc1|].
      split; [|reflexivity].
      apply for_items_raises in Ep.
      destruct Ep as (before & item & behind & _ & _ & Hbad).
      apply (parse_item_raise _ _ _ _ Hbad).
  - apply Z.leb_gt in Hcp. unfold MAX_PAGES in *.
    exists (Ok (Some rows)), st, [].
    split; [reflexivity|]. split; [rewrite List.app_nil_r; reflexivity|].
    split; [lia|]. right. split; [reflexivity|].
    change (page_loads []) with 0%nat. lia.
Qed.

End Counting.

(** X8.  Every page the browser is moved to is parsed, except the one after
    the cap.  The loop of [main] loads at least one page; the clicks it
    made are one less than the pages it loaded, unless it stopped at the cap
    with 200 pages loaded and 200 clicks made, the browser then showing a
    page that is never parsed.  When a page raises, the exception is
    [ValueError] and the loop had made one click less than pages loaded. *)
Theorem crawl_loop_pages_and_clicks (ud : char -> option N) (lim : N)
    (W : Type) (site : Site W) (fuel : nat) (rows : list ProductRow) (st : state) :
  (Z.to_nat MAX_PAGES < fuel)%nat ->
  exists r st' cs,
    crawl_loop ud lim site fuel 1%Z rows st = (r, st')
    /\ calls st' = calls st ++ cs
    /\ (1 <= page_loads cs)%nat
    /\ ((clicks_made cs + 1)%nat = page_loads cs
        \/ clicks_made cs = 200%nat /\ page_loads cs = 200%nat
           /\ exists all_rows, r = Ok (Some all_rows))
    /\ forall e, r = Raise e ->
         e = ValueError /\ (clicks_made cs + 1)%nat = page_loads cs.
Proof.
  intros Hfuel.
  destruct (crawl_loop_counts ud lim site fuel 1%Z rows st Hfuel)
    as (r & st' & cs & E & Hc & Hr).
  exists r, st', cs. split; [exact E|]. split; [exact Hc|].
  change (Z.to_nat (MAX_PAGES + 1 - 1)) with 200%nat in Hr.
  destruct r as [[all_rows|]|e]; [| contradiction |].
  - destruct Hr as [H1 H2].
    split; [apply H1; unfold MAX_PAGES; lia|].
    split; [|intros e He; discriminate].
    destruct H2 as [H2|[H2 H3]]; [left; exact H2|].
    right. rewrite H2. repeat split; eauto.
  - destruct Hr as [He Hr].
    split; [lia|]. split; [left; exact Hr|].
    intros e' He'. injection He' as <-. auto.
Qed.

Lemma crawl_loop_pages_and_clicks_witness :
  exists r st' cs,
    crawl_loop ascii_only 4300 (listing [[ABC_ITEM]; [ABC_ITEM]]) 201 1%Z []
      (start 0%nat) = (r, st')
    /\ calls st' = calls (start 0%nat) ++ cs
    /\ (1 <= page_loads cs)%nat
    /\ ((clicks_made cs + 1)%nat = page_loads cs
        \/ clicks_made cs = 200%nat /\ page_loads cs = 200%nat
           /\ exists all_rows, r = Ok (Some all_rows))
    /\ forall e, r = Raise e ->
         e = ValueError /\ (clicks_made cs + 1)%nat = page_loads cs.
Proof.
  apply crawl_loop_pages_and_clicks. vm_compute. lia.
Defined.



(* ================================================================== *)
(** ** The page counter keeps in step with the links asked for *)

Lemma xpath_waits_app (cs1 cs2 : list call) :
  xpath_waits (cs1 ++ cs2) = xpath_waits cs1 ++ xpath_waits cs2.
Proof. apply flat_map_app. Qed.

Lemma links_from (cp : Z) (m : nat) :
  map (fun i => num_link_xpath (str (cp + Z.of_nat i))) (seq 1 (S m))
  = num_link_xpath (str (cp + 1))
    :: map (fun i => num_link_xpath (str (cp + 1 + Z.of_nat i))) (seq 1 m).
Proof.
  cbn [seq map]. f_equal.
  rewrite <- seq_shift, map_map. apply map_ext. intros i.
  do 2 f_equal. lia.
Qed.

Section Numbering.
Variable unicode_decimal : char -> option N.
Variable int_max_str_digits : N.
Context {W : Type} (site : Site W).

Local Abbreviation page_rows_of := (parse_items unicode_decimal int_max_str_digits).
Local Abbreviation loop := (crawl_loop unicode_decimal int_max_str_digits site).

Lemma crawl_loop_numbering (fuel : nat) :
  forall (cp : Z) (rows : list ProductRow) (st : state),
    (Z.to_nat (MAX_PAGES + 1 - cp) < fuel)%nat ->
    exists r st' cs,
      loop fuel cp rows st = (r, st')
      /\ calls st' = calls st ++ cs
      /\ (forall e, r = Raise e -> (1 <= page_loads cs)%nat)
      /\ xpath_waits cs
         = map (fun i => num_link_xpath (str (cp + Z.of_nat i)))
               (seq 1 (tried r cs)).
Proof.
  induction fuel as [|fuel IH]; intros cp rows st Hfuel; [lia|].
  rewrite crawl_loop_step.
  destruct (cp <=? MAX_PAGES)%Z eqn:Hcp.
  - apply Z.leb_le in Hcp. unfold MAX_PAGES in *.
    destruct (parse_current_page_run unicode_decimal int_max_str_digits site st)
      as (st1 & E1 & Hc1 & _).
    rewrite E1.
    destruct (page_rows_of (candidates_of site (world st))) as [page_rows|e] eqn:Ep.
    + destruct (go_to_next_page_shape site cp st1)
        as (moved & st2 & asked & E2 & _ & Hq & _ & Hx & Hc2).
      rewrite E2.
      destruct (query_calls_count asked Hq) as (_ & _ & _ & Q4 & _).
      destruct moved; simpl negb; cbv iota.
      * destruct Hc2 as (el & Hc2).
        destruct (clicks_count el) as (_ & _ & _ & _ & C5).
        destruct (IH (cp + 1)%Z (rows ++ page_rows) st2 ltac:(lia))
          as (r & st3 & cs3 & E3 & Hc3 & Hone & Hr).
        exists r, st3,
          ([PageSource (candidates_of site (world st))] ++ (asked ++ clicks el) ++ cs3).
        split; [exact E3|]. split.
        { rewrite Hc3, Hc2, Hc1, <- !List.app_assoc. reflexivity. }
        assert (Hloads :
          page_loads ([PageSource (candidates_of site (world st))]
                        ++ (asked ++ clicks el) ++ cs3)
          = S (page_loads cs3)).
        { rewrite !page_loads_app, Q4, C5. reflexivity. }
        split; [intros e _; lia|].
        assert (Htried :
          tried r ([PageSource (candidates_of site (world st))]
                     ++ (asked ++ clicks el) ++ cs3)
          = S (tried r cs3)).
        { unfold tried. rewrite Hloads. destruct r as [o|e]; [reflexivity|].
          specialize (Hone e eq_refl). lia. }
        rewrite Htried, links_from.
        rewrite !xpath_waits_app, Hx, Hr.
        change (xpath_waits [PageSource _]) with (@nil text).
        change (xpath_waits (clicks el)) with (@nil text).
        reflexivity.
      * exists (Ok (Some (rows ++ page_rows))), st2,
          ([PageSource (candidates_of site (world st))] ++ asked).
        split; [reflexivity|]. split.
        { rewrite Hc2, Hc1, <- !List.app_assoc. reflexivity. }
        split; [intros e He; discriminate|].
        unfold tried. rewrite page_loads_app, Q4, xpath_waits_app, Hx.
        reflexivity.
    + exists (Raise e), st1, [PageSource (candidates_of site (world st))].
      split; [reflexivity|]. split; [exact Hc1|].
      split; [intros; unfold page_loads; simpl; lia|]. reflexivity.
  - exists (Ok (Some rows)), st, [].
    split; [reflexivity|]. split; [rewrite List.app_nil_r; reflexivity|].
    split; [intros e He; discriminate|]. reflexivity.
Qed.

End Numbering.

(** X10.  The page counter keeps in step with the browser: in the loop of
    [main] the numbered links waited for are those of pages 2, 3, 4, ... in
    this order, one after each page loaded (none after a page that
    raised); no number is asked for twice and none is skipped. *)
Theorem crawl_loop_asks_consecutive_pages (ud : char -> option N) (lim : N)
    (W : Type) (site : Site W) (fuel : nat) (rows : list ProductRow) (st : state) :
  (Z.to_nat MAX_PAGES < fuel)%nat ->
  exists r st' cs,
    crawl_loop ud lim site fuel 1%Z rows st = (r, st')
    /\ calls st' = calls st ++ cs
    /\ xpath_waits cs
       = map (fun page => num_link_xpath (str (Z.of_nat page)))
             (seq 2 (tried r cs)).
Proof.
  intros Hfuel.
  destruct (crawl_loop_numbering ud lim site fuel 1%Z rows st Hfuel)
    as (r & st' & cs & E & Hc & _ & Hx).
  exists r, st', cs. split; [exact E|]. split; [exact Hc|].
  rewrite Hx, <- (seq_shift (tried r cs) 1), map_map. apply map_ext. intros i.
  do 2 f_equal. lia.
Qed.

Lemma crawl_loop_asks_consecutive_pages_witness :
  exists r st' cs,
    crawl_loop ascii_only 4300 (listing [[ABC_ITEM]; []; [ABC_ITEM]]) 201 1%Z []
      (start 0%nat) = (r, st')
    /\ calls st' = calls (start 0%nat) ++ cs
    /\ xpath_waits cs
       = map (fun page => num_link_xpath (str (Z.of_nat page)))
             (seq 2 (tried r cs)).
Proof.
  apply crawl_loop_asks_consecutive_pages. vm_compute. lia.
Defined.

(* ================================================================== *)
(** ** More on the result file: how a row is written *)

Lemma uint_plain (d : Decimal.uint) :
  existsb csv_special (ascii_text (NilEmpty.string_of_uint d)) = false.
Proof. induction d; simpl; auto. Qed.

Lemma nilzero_plain (d : Decimal.uint) :
  existsb csv_special (ascii_text (NilZero.string_of_uint d)) = false.
Proof. destruct d; first [reflexivity | apply uint_plain]. Qed.

Lemma str_plain (n : Z) : existsb csv_special (str n) = false.
Proof.
  unfold str, NilZero.string_of_int.
  destruct (Z.to_int n) as [d|d]; [apply nilzero_plain|].
  change (existsb csv_special (N_of_ascii "-" :: ascii_text (NilZero.string_of_uint d))
          = false).
  cbn [existsb]. rewrite nilzero_plain. reflexivity.
Qed.

Lemma csv_field_plain (s : text) :
  existsb csv_special s = false -> csv_field s = s.
Proof. unfold csv_field. intros ->. reflexivity. Qed.

(** X11.  A product row is written as one line: the name field, then the
    total, the freezer and the fridge capacity in this order, each in plain
    decimal and never quoted, separated by commas and ended by CR LF. *)
Theorem product_line (name : text) (total_l freezer_l fridge_l : Z) :
  csv_line (row_cells (name, total_l, freezer_l, fridge_l))
  = csv_field name ++ [COMMA] ++ str total_l ++ [COMMA] ++ str freezer_l
    ++ [COMMA] ++ str fridge_l ++ [13; 10].
Proof.
  unfold row_cells, csv_line.
  assert (E : join [COMMA]
                (map csv_field [name; str total_l; str freezer_l; str fridge_l])
              = csv_field name ++ [COMMA] ++ str total_l ++ [COMMA]
                ++ str freezer_l ++ [COMMA] ++ str fridge_l).
  { cbn [map join].
    rewrite !(csv_field_plain _ (str_plain _)). reflexivity. }
  destruct name; rewrite E, <- !List.app_assoc; reflexivity.
Qed.

Lemma doubling_inj (a b : text) :
  str_replace QUOTE [QUOTE; QUOTE] a = str_replace QUOTE [QUOTE; QUOTE] b ->
  a = b.
Proof.
  unfold str_replace. revert b.
  induction a as [|x a IH]; intros [|y b] H; simpl in H; try reflexivity.
  - destruct (y =? QUOTE); discriminate.
  - destruct (x =? QUOTE); discriminate.
  - destruct (x =? QUOTE) eqn:Ex, (y =? QUOTE) eqn:Ey; simpl in H.
    + apply N.eqb_eq in Ex, Ey. subst. injection H as H. f_equal. auto.
    + injection H as H1 H2. subst y.
      destruct b as [|z b]; simpl in H2; [discriminate|].
      exfalso. revert Ey. rewrite N.eqb_refl. discriminate.
    + injection H as H1 H2. subst x.
      revert Ex. rewrite N.eqb_refl. discriminate.
    + injection H as -> H. f_equal. auto.
Qed.

(** X12.  No two names are written the same way: the field written for a
    name, quoted or not, determines the name. *)
Theorem csv_field_inj (a b : text) : csv_field a = csv_field b -> a = b.
Proof.
  unfold csv_field.
  destruct (existsb csv_special a) eqn:Ea, (existsb csv_special b) eqn:Eb; intros H.
  - injection H as H. apply app_inv_tail in H. apply doubling_inj. exact H.
  - subst b. simpl in Eb. discriminate.
  - subst a. simpl in Ea. discriminate.
  - exact H.
Qed.

(* ================================================================== *)
(** ** From a card to its row *)

Section Cards.
Variable unicode_decimal : char -> option N.
Variable int_max_str_digits : N.

Local Abbreviation first := (first_field unicode_decimal).
Local Abbreviation readable := (convertible unicode_decimal int_max_str_digits).
Local Abbreviation value := (number_of unicode_decimal).
Local Abbreviation body := (parse_item unicode_decimal int_max_str_digits).

(** X13.  A card with a name and a spec block (div.spec_list, or
    div.prod_spec_set when that one is absent) whose text has a readable
    first field for each of the three labels gives a row, and the row is the
    name with the numbers written in the 총용량, 냉동 and 냉장 fields, in
    this order. *)
Theorem parse_item_row (item : Item) (name_el spec_el : Tag) (nt nr nz : text) :
  select_one item SEL_NAME = Some name_el ->
  (select_one item SEL_SPEC_LIST = Some spec_el
   \/ select_one item SEL_SPEC_LIST = None
      /\ select_one item SEL_PROD_SPEC_SET = Some spec_el) ->
  first LABEL_TOTAL (get_text spec_el) nt -> readable nt ->
  first LABEL_FRIDGE (get_text spec_el) nr -> readable nr ->
  first LABEL_FREEZER (get_text spec_el) nz -> readable nz ->
  body item = Ok (Some (get_text name_el, value nt, value nz, value nr)).
Proof.
  intros Hn Hs Ht Ct Hr Cr Hz Cz.
  assert (E : emit_row unicode_decimal int_max_str_digits
                (get_text name_el) (get_text spec_el)
              = Ok (Some (get_text name_el, value nt, value nz, value nr))).
  { unfold emit_row, extract_capacities.
    rewrite (find_l_first_field _ _ _ _ _ Ht Ct).
    rewrite (find_l_first_field _ _ _ _ _ Hr Cr).
    rewrite (find_l_first_field _ _ _ _ _ Hz Cz).
    reflexivity. }
  unfold parse_item. rewrite Hn.
  destruct Hs as [Hs|[Hs1 Hs2]].
  - rewrite Hs. exact E.
  - rewrite Hs1, Hs2. exact E.
Qed.

End Cards.

Lemma parse_item_row_witness :
  parse_item ascii_only 4300
    (an_item (Some (py "비스포크 4도어")) None
       (Some (py "냉동 :1,367 L / 냉장:503L / 총용량 1,870L")))
  = Ok (Some (get_text (Build_Tag (py "비스포크 4도어")),
              number_of ascii_only (py "1,870"),
              number_of ascii_only (py "1,367"),
              number_of ascii_only (py "503"))).
Proof.
  apply (parse_item_row ascii_only 4300 _ _
           (Build_Tag (py "냉동 :1,367 L / 냉장:503L / 총용량 1,870L"))).
  - vm_compute. reflexivity.
  - right. split; vm_compute; reflexivity.
  - apply first_field_search. vm_compute. reflexivity.
  - split; vm_compute; reflexivity.
  - apply first_field_search. vm_compute. reflexivity.
  - split; vm_compute; reflexivity.
  - apply first_field_search. vm_compute. reflexivity.
  - split; vm_compute; reflexivity.
Defined.

Lemma csv_field_inj_witness :
  py "LG, 오브제" = [76; 71; 44; 32; 50724; 48652; 51228].
Proof.
  apply csv_field_inj. vm_compute. reflexivity.
Defined.
